(** * Anqueue: a shallow embedding of the task queue and its dispatch code

    The development follows the TypeScript sources of the repository:

    - [JS]            values, truthiness, [typeof], thrown values and the
                      completion monad used for code that mutates state and
                      may throw;
    - [Util]          [hasProperty] of [src/lib/util.ts];
    - [QueueTask]     the task class of [src/task.ts];
    - [TaskExecutor]  the executor base class of [src/task-executor.ts];
    - [Adapter]       [PrismaAdapter.upsert] of [src/database-adapter.ts] and
                      [safeUpsert] of [src/lib/db.ts];
    - [WorkerScript]  the child-side runtime ([withWorkerCapacity],
                      [processTasks]);
    - [Manager]       the parent-side worker handle and [WorkerManager];
    - [Queue]         the in-memory stack of the facade ([remove] and friends);
    - [Strategies]    the [single] and [batch] dispatch strategies;
    - [Scenarios]     concrete tasks, pools and queues the examples run on;
    - [Files]         [getFileParts] of [src/lib/files.ts];
    - [Registry]      the file filter and the schema sanitisation of
                      [src/task-registry.ts];
    - [Facade]        [runTasks] and its choice of a strategy;
    - [Extensions]    [changeFileExtensions] of [src/lib/files.ts];
    - [Notions]       predicates the properties are stated with;
    - [MoreScenarios] further concrete inputs.

    JavaScript numbers are modelled by [Z] (the code only counts and compares
    integers), dates by their epoch time in [Z], strings by [string]. *)

From Stdlib Require Import ZArith List Bool Ascii String Lia DecimalString.
From Stdlib Require Import Sorted Permutation.
From stdpp Require Import base strings gmap.

Set Warnings "-register-all".

Import ListNotations.
Local Open Scope string_scope.
Local Open Scope Z_scope.
Local Open Scope list_scope.

(* ===================================================================== *)
(** ** JavaScript values and completions *)
(* ===================================================================== *)

Module JS.

(** The fragment of JavaScript values the queue inspects. A function is
    kept by its source text, which is all [toString] can observe. *)
Inductive Value : Type :=
| VUndefined
| VNull
| VBool (b : bool)
| VNum (n : Z)
| VStr (s : string)
| VFun (src : string)
| VObj (props : list (string * Value)).

(** [typeof v] *)
Inductive TypeString : Type :=
| TBigint | TBoolean | TString | TFunction | TNumber | TObject | TSymbol
| TUndefined.

Definition TypeString_eqb (a b : TypeString) : bool :=
  match a, b with
  | TBigint, TBigint | TBoolean, TBoolean | TString, TString
  | TFunction, TFunction | TNumber, TNumber | TObject, TObject
  | TSymbol, TSymbol | TUndefined, TUndefined => true
  | _, _ => false
  end.

Definition typeof (v : Value) : TypeString :=
  match v with
  | VUndefined => TUndefined
  | VNull => TObject
  | VBool _ => TBoolean
  | VNum _ => TNumber
  | VStr _ => TString
  | VFun _ => TFunction
  | VObj _ => TObject
  end.

(** [ToBoolean]: [undefined], [null], [false], [0] and the empty string are
    falsy. *)
Definition truthy (v : Value) : bool :=
  match v with
  | VUndefined | VNull => false
  | VBool b => b
  | VNum n => negb (Z.eqb n 0)
  | VStr s => negb (String.eqb s "")
  | VFun _ | VObj _ => true
  end.

(** Strict equality [===] on primitives; two object or function values are
    only equal when they are the same reference, which a value-level model
    cannot see, so they compare unequal. *)
Definition strict_eq (a b : Value) : bool :=
  match a, b with
  | VUndefined, VUndefined => true
  | VNull, VNull => true
  | VBool x, VBool y => Bool.eqb x y
  | VNum x, VNum y => Z.eqb x y
  | VStr x, VStr y => String.eqb x y
  | _, _ => false
  end.

(** Own-property lookup [o[k]] and the [in] operator on a property list. *)
Fixpoint get_prop (k : string) (props : list (string * Value)) : option Value :=
  match props with
  | [] => None
  | (k', v) :: rest => if String.eqb k k' then Some v else get_prop k rest
  end.

(** [x || d] on an optional number: absent, and [0], give the default. *)
Definition num_or (o : option Z) (d : Z) : Z :=
  match o with
  | Some n => if Z.eqb n 0 then d else n
  | None => d
  end.

(** [x || d] on an optional string: absent and [""] give the default. *)
Definition str_or (o : option string) (d : string) : string :=
  match o with
  | Some s => if String.eqb s "" then d else s
  | None => d
  end.

(** Decimal rendering of an integer inside a template literal. *)
Definition dec (z : Z) : string := NilZero.string_of_int (Z.to_int z).

(** [s.includes(pat)] *)
Fixpoint includes (s pat : string) : bool :=
  if String.prefix pat s then true
  else match s with
       | EmptyString => false
       | String _ s' => includes s' pat
       end.

(** [array.some(p)] *)
Definition some {A} (p : A -> bool) (l : list A) : bool := existsb p l.

(** A completion: the normal result of a call, or the value it threw. *)
Inductive Completion (E A : Type) : Type :=
| Return (a : A)
| Throw (e : E).
Arguments Return {E A} a.
Arguments Throw {E A} e.

(** Code that mutates a state [S] and may throw [E]: the state survives a
    throw, as it does in JavaScript. *)
Definition M (S E A : Type) : Type := S -> Completion E A * S.

Definition ret {S E A} (a : A) : M S E A := fun s => (Return a, s).
Definition throw {S E A} (e : E) : M S E A := fun s => (Throw e, s).
Definition bind {S E A B} (m : M S E A) (k : A -> M S E B) : M S E B :=
  fun s => match m s with
           | (Return a, s') => k a s'
           | (Throw e, s') => (Throw e, s')
           end.
Definition get {S E} : M S E S := fun s => (Return s, s).
Definition put {S E} (s : S) : M S E unit := fun _ => (Return tt, s).
Definition modify {S E} (f : S -> S) : M S E unit := fun s => (Return tt, f s).

(** [try { body } catch (e) { handler e }] *)
Definition try_catch {S E A} (body : M S E A) (handler : E -> M S E A) : M S E A :=
  fun s => match body s with
           | (Return a, s') => (Return a, s')
           | (Throw e, s') => handler e s'
           end.

(** [try { body } finally { fin }]: [fin] runs on both exits; a throw of
    [fin] itself replaces the completion of [body]. *)
Definition try_finally {S E A} (body : M S E A) (fin : M S E unit) : M S E A :=
  fun s => match body s with
           | (c, s') => match fin s' with
                        | (Return _, s'') => (c, s'')
                        | (Throw e, s'') => (Throw e, s'')
                        end
           end.

End JS.

Declare Scope js_scope.
Delimit Scope js_scope with js.
Notation "'let*' x ':=' m 'in' k" := (JS.bind m (fun x => k))
  (at level 10, x pattern, m at level 100, k at level 200) : js_scope.
Notation "m ';;' k" := (JS.bind m (fun _ => k))
  (at level 100, k at level 200, right associativity) : js_scope.

(* ===================================================================== *)
(** ** src/lib/util.ts *)
(* ===================================================================== *)

Module Util.
Import JS.

(** The optional third argument of [hasProperty]. *)
Record Expect : Type := {
  expect_type : option TypeString;
  expect_value : option Value
}.

(** [hasProperty(object, property, expect?)]: [expect = None] is the call
    with two arguments, so [arguments.length >= 3] is [expect <> None]. *)
Definition hasProperty (object : Value) (property : string)
           (expect : option Expect) : bool :=
  match object with
  | VObj props =>
      match get_prop property props with
      | None => false
      | Some value =>
          let bad_type :=
            match expect with
            | Some {| expect_type := Some ty |} =>
                negb (TypeString_eqb (typeof value) ty)
            | _ => false
            end in
          if bad_type then false
          else match expect with
               | Some {| expect_value := Some ev |} =>
                   if truthy ev then strict_eq value ev else true
               | _ => true
               end
      end
  | _ => false
  end.

End Util.

(* ===================================================================== *)
(** ** src/task.ts *)
(* ===================================================================== *)

Module QueueTask.
Import JS.

Inductive Status : Type := pending | running | completed | failed | cancelled.

Definition Status_eqb (a b : Status) : bool :=
  match a, b with
  | pending, pending | running, running | completed, completed
  | failed, failed | cancelled, cancelled => true
  | _, _ => false
  end.

(** An [Error] object, as far as the queue reads it. *)
Record Error : Type := mkError { message : string }.

(** [TaskResult<T> = { processed: boolean } & T] *)
Record TaskResult : Type := mkResult { processed : bool; payload : Value }.

(** The task's own promise, settled at most once through [#resolve] and
    [#reject]. *)
Inductive PromiseState : Type :=
| Unsettled
| Fulfilled (r : TaskResult)
| RejectedWith (e : Error).

(** [TaskOptions] of [types/task.d.ts]; an absent property is [None], an
    absent [data] is [undefined]. *)
Record TaskOptions : Type := mkOptions {
  o_uid : option string;
  o_name : string;
  o_type : string;
  o_description : option string;
  o_priority : option Z;
  o_maxRetries : option Z;
  o_delay : option Z;
  o_timeout : option Z;
  o_data : Value;
  o_userId : option Z;
  o_metadata : option (list (string * Value));
  o_runAt : option Z
}.

(** What the constructor reads from its surroundings: the two environment
    variables after [Number(...)] ([None] stands for [NaN], which is what an
    unset variable gives), and the clock and random suffix [#generateId]
    would use. *)
Record Env : Type := mkEnv {
  MAX_TASK_RETRIES : option Z;
  TASK_TIMEOUT_MS : option Z;
  now : Z;
  random : string
}.

Record Task : Type := mkTask {
  uid : string;
  name : string;
  type : string;
  description : option string;
  status : Status;
  progress : Z;
  startedAt : option Z;
  failedAt : option Z;
  completedAt : option Z;
  promise : PromiseState;
  priority : Z;
  retryCount : Z;
  maxRetries : Z;
  delay : Z;
  timeout : Z;
  runAt : option Z;
  data : Value;
  userId : option Z;
  metadata : list (string * Value);
  error : option Error;
  errorHistory : list Error
}.

Definition set_status (v : Status) (t : Task) : Task :=
  mkTask (uid t) (name t) (type t) (description t) v (progress t)
    (startedAt t) (failedAt t) (completedAt t) (promise t) (priority t)
    (retryCount t) (maxRetries t) (delay t) (timeout t) (runAt t) (data t)
    (userId t) (metadata t) (error t) (errorHistory t).

Definition set_progress (v : Z) (t : Task) : Task :=
  mkTask (uid t) (name t) (type t) (description t) (status t) v
    (startedAt t) (failedAt t) (completedAt t) (promise t) (priority t)
    (retryCount t) (maxRetries t) (delay t) (timeout t) (runAt t) (data t)
    (userId t) (metadata t) (error t) (errorHistory t).

Definition set_startedAt (v : option Z) (t : Task) : Task :=
  mkTask (uid t) (name t) (type t) (description t) (status t) (progress t) v
    (failedAt t) (completedAt t) (promise t) (priority t) (retryCount t)
    (maxRetries t) (delay t) (timeout t) (runAt t) (data t) (userId t)
    (metadata t) (error t) (errorHistory t).

Definition set_failedAt (v : option Z) (t : Task) : Task :=
  mkTask (uid t) (name t) (type t) (description t) (status t) (progress t)
    (startedAt t) v (completedAt t) (promise t) (priority t) (retryCount t)
    (maxRetries t) (delay t) (timeout t) (runAt t) (data t) (userId t)
    (metadata t) (error t) (errorHistory t).

Definition set_completedAt (v : option Z) (t : Task) : Task :=
  mkTask (uid t) (name t) (type t) (description t) (status t) (progress t)
    (startedAt t) (failedAt t) v (promise t) (priority t) (retryCount t)
    (maxRetries t) (delay t) (timeout t) (runAt t) (data t) (userId t)
    (metadata t) (error t) (errorHistory t).

Definition set_promise (v : PromiseState) (t : Task) : Task :=
  mkTask (uid t) (name t) (type t) (description t) (status t) (progress t)
    (startedAt t) (failedAt t) (completedAt t) v (priority t) (retryCount t)
    (maxRetries t) (delay t) (timeout t) (runAt t) (data t) (userId t)
    (metadata t) (error t) (errorHistory t).

Definition set_retryCount (v : Z) (t : Task) : Task :=
  mkTask (uid t) (name t) (type t) (description t) (status t) (progress t)
    (startedAt t) (failedAt t) (completedAt t) (promise t) (priority t) v
    (maxRetries t) (delay t) (timeout t) (runAt t) (data t) (userId t)
    (metadata t) (error t) (errorHistory t).

Definition set_error (v : option Error) (t : Task) : Task :=
  mkTask (uid t) (name t) (type t) (description t) (status t) (progress t)
    (startedAt t) (failedAt t) (completedAt t) (promise t) (priority t)
    (retryCount t) (maxRetries t) (delay t) (timeout t) (runAt t) (data t)
    (userId t) (metadata t) v (errorHistory t).

Definition set_errorHistory (v : list Error) (t : Task) : Task :=
  mkTask (uid t) (name t) (type t) (description t) (status t) (progress t)
    (startedAt t) (failedAt t) (completedAt t) (promise t) (priority t)
    (retryCount t) (maxRetries t) (delay t) (timeout t) (runAt t) (data t)
    (userId t) (metadata t) (error t) v.

Definition quote : string := String (ascii_of_nat 34) EmptyString.
Definition newline : ascii := ascii_of_nat 10.

Definition generateId (env : Env) : string :=
  "task_" +:+ dec (now env) +:+ "_" +:+ random env.

(** [constructor(options)] *)
Definition new_Task (env : Env) (options : TaskOptions) : Task := {|
  uid := str_or (o_uid options) (generateId env);
  name := o_name options;
  type := o_type options;
  description := o_description options;
  status := pending;
  progress := 0;
  startedAt := None;
  failedAt := None;
  completedAt := None;
  promise := Unsettled;
  priority := num_or (o_priority options) 0;
  retryCount := 0;
  maxRetries := num_or (o_maxRetries options) (num_or (MAX_TASK_RETRIES env) 3);
  delay := num_or (o_delay options) 0;
  timeout := num_or (o_timeout options) (num_or (TASK_TIMEOUT_MS env) 30000);
  runAt := o_runAt options;
  data := o_data options;
  userId := o_userId options;
  metadata := match o_metadata options with Some m => m | None => [] end;
  error := None;
  errorHistory := []
|}.

(** [static fromPlainObject(object)]: the spread copies every property. *)
Definition fromPlainObject (env : Env) (object : TaskOptions) : Task :=
  new_Task env object.

(** [#resolve] and [#reject] only act on an unsettled promise. *)
Definition resolve (r : TaskResult) (t : Task) : Task :=
  match promise t with
  | Unsettled => set_promise (Fulfilled r) t
  | _ => t
  end.

Definition reject (e : Error) (t : Task) : Task :=
  match promise t with
  | Unsettled => set_promise (RejectedWith e) t
  | _ => t
  end.

(** An entry of a validation schema: the array may hold anything, and
    [validate] skips what is not a function. A function is its source text
    and what it returns on a task. *)
Inductive TaskValidationRule : Type :=
| NotAFunction (v : Value)
| Validator (src : string) (f : Task -> Value).

Record ValidationResult : Type := mkValidation {
  passed : bool;
  reason : string
}.

Definition is_blank (c : ascii) : bool :=
  Ascii.eqb c (ascii_of_nat 9) || Ascii.eqb c (ascii_of_nat 32).

Definition is_line_terminator (c : ascii) : bool :=
  Ascii.eqb c newline || Ascii.eqb c (ascii_of_nat 13).

(** [.replace(/^[\t ]+/gm, "")]: [bol] holds at the start of a line. *)
Fixpoint strip_indent (bol : bool) (s : string) : string :=
  match s with
  | EmptyString => EmptyString
  | String c s' =>
      if bol && is_blank c then strip_indent true s'
      else String c (strip_indent (is_line_terminator c) s')
  end.

(** [.replace(/\n{2,}/g, "\n")]: [nl] holds right after a newline. *)
Fixpoint collapse_newlines (nl : bool) (s : string) : string :=
  match s with
  | EmptyString => EmptyString
  | String c s' =>
      if Ascii.eqb c newline
      then if nl then collapse_newlines true s'
           else String c (collapse_newlines true s')
      else String c (collapse_newlines false s')
  end.

Definition validatorCode (src : string) : string :=
  collapse_newlines false (strip_indent true src).

Definition failure_reason (src : string) : string :=
  "ValidationRule " +:+ quote +:+ validatorCode src +:+ quote
    +:+ " did not resolve to true".

(** One turn of the [forEach] in [validate]. *)
Definition validate_step (t : Task) (result : ValidationResult)
           (validator : TaskValidationRule) : ValidationResult :=
  match validator with
  | NotAFunction _ => result
  | Validator src f =>
      if negb (truthy (f t))
      then {| passed := false; reason := failure_reason src |}
      else result
  end.

(** [validate(validationSchema)] *)
Definition validate (validationSchema : list TaskValidationRule) (t : Task)
  : ValidationResult :=
  fold_left (validate_step t) validationSchema
            {| passed := true; reason := "Validation passed" |}.

(** [addError(error)] *)
Definition addError (e : Error) (t : Task) : Task :=
  set_errorHistory (errorHistory t ++ [e]) (set_error (Some e) t).

(** [#retry()] *)
Definition retry (t : Task) : bool * Task :=
  if retryCount t >=? maxRetries t then (false, t)
  else (true,
        set_error None
          (set_completedAt None
             (set_startedAt None
                (set_progress 0
                   (set_status pending
                      (set_retryCount (retryCount t + 1) t)))))).

(** The three assignments that open [execute], at clock time [at_]. *)
Definition setRunning (at_ : Z) (t : Task) : Task :=
  set_progress 0 (set_startedAt (Some at_) (set_status running t)).

(** [#setFailed()] and [#setCompleted()], at clock time [at_]. *)
Definition setFailed (at_ : Z) (t : Task) : Task :=
  set_progress 0 (set_failedAt (Some at_) (set_status failed t)).

Definition setCompleted (at_ : Z) (t : Task) : Task :=
  set_progress 100 (set_completedAt (Some at_) (set_status completed t)).

(** [#handleError(error)] *)
Definition handleError (at_ : Z) (e : Error) (t : Task) : Task :=
  reject e (setFailed at_ (addError e t)).

(** [#shouldRetry(error, retrySchema)] *)
Definition shouldRetry (e : Error) (retrySchema : list string) : bool :=
  let retryableErrors := "Network timeout" :: retrySchema in
  some (fun pattern => includes (message e) pattern) retryableErrors.

(** The rejection of [#createTimeout()]. *)
Definition timeoutError (t : Task) : Error :=
  {| message := "Task " +:+ uid t +:+ " timed out after "
                  +:+ dec (timeout t) +:+ "ms" |}.

(** How the race between the executor and the timeout of one attempt
    settles: the executor fulfils first, the executor rejects (or throws)
    first, or the timeout fires first. *)
Inductive Settled : Type :=
| ExecutorReturned (r : TaskResult)
| ExecutorThrew (e : Error)
| TimeoutFired.

(** One attempt as the task sees it: the clock when it starts, how the race
    settles, and the clock at that moment (the sleep for [delay], when there
    is one, lies between the two readings). *)
Record Attempt : Type := mkAttempt {
  startTime : Z;
  settled : Settled;
  settleTime : Z
}.

Definition notPendingError (t : Task) : Error :=
  {| message := "Task " +:+ uid t +:+ " is not in pending status" |}.

(** [execute(executor, retrySchema)]. [run k] is the [k]-th attempt of this
    call; the recursion of the source is on a task whose [retryCount] has
    just grown, and [fuel] bounds it. *)
Fixpoint execute_fuel (fuel : nat) (run : nat -> Attempt) (k : nat)
         (retrySchema : list string) (t : Task)
  : option (Completion Error TaskResult * Task) :=
  match fuel with
  | O => None
  | S fuel' =>
      if negb (Status_eqb (status t) pending)
      then Some (Throw (notPendingError t), t)
      else
        let a := run k in
        let t1 := setRunning (startTime a) t in
        let on_error (e : Error) :=
          if shouldRetry e retrySchema
          then
            let (again, t2) := retry t1 in
            if again then execute_fuel fuel' run (S k) retrySchema t2
            else Some (Throw e, handleError (settleTime a) e t2)
          else Some (Throw e, handleError (settleTime a) e t1) in
        match settled a with
        | ExecutorReturned r =>
            if negb (processed r)
            then Some (Return r, setFailed (settleTime a) t1)
            else Some (Return r, resolve r (setCompleted (settleTime a) t1))
        | ExecutorThrew e => on_error e
        | TimeoutFired => on_error (timeoutError t1)
        end
  end.

(** Every recursive call has used up one of the [maxRetries - retryCount]
    retries that are left, so this much fuel is never exhausted. *)
Definition execute (run : nat -> Attempt) (retrySchema : list string)
           (t : Task) : option (Completion Error TaskResult * Task) :=
  execute_fuel (S (Z.to_nat (maxRetries t - retryCount t))) run 0
               retrySchema t.

(** [cancel()] *)
Definition cancel (at_ : Z) (t : Task) : Task :=
  if Status_eqb (status t) pending || Status_eqb (status t) running
  then reject {| message := "Task cancelled" |}
         (set_completedAt (Some at_) (set_status cancelled t))
  else t.


(** [readyToRun()] at clock time [at_]. *)
Definition readyToRun (at_ : Z) (t : Task) : bool :=
  match runAt t with
  | None => true
  | Some r => Z.leb r at_
  end.

(** *** Notions used to state the properties of a task *)

(** What the constructor can read back from a task that was sent over the
    process channel: the properties of [TaskOptions] the task carries. *)
Definition toPlainObject (t : Task) : TaskOptions := {|
  o_uid := Some (uid t);
  o_name := name t;
  o_type := type t;
  o_description := description t;
  o_priority := Some (priority t);
  o_maxRetries := Some (maxRetries t);
  o_delay := Some (delay t);
  o_timeout := Some (timeout t);
  o_data := data t;
  o_userId := userId t;
  o_metadata := Some (metadata t);
  o_runAt := runAt t
|}.

(** The round trip of a snapshot [o]: the task [t] built from it has the
    snapshot's value in each of the ten listed fields. *)
Definition reconstructs (o : TaskOptions) (t : Task) : Prop :=
  Some (uid t) = o_uid o /\ type t = o_type o /\ name t = o_name o /\
  description t = o_description o /\ data t = o_data o /\
  Some (metadata t) = o_metadata o /\ Some (priority t) = o_priority o /\
  Some (maxRetries t) = o_maxRetries o /\ Some (timeout t) = o_timeout o /\
  runAt t = o_runAt o.

(** [p] occurs in [s]. *)
Definition Substring (p s : string) : Prop :=
  exists pre post, s = pre +:+ p +:+ post.

(** The error [execute] catches when attempt [a] of task [t] does not
    fulfil: what the executor threw, or the timeout's own error. *)
Definition failure (a : Attempt) (t : Task) : option Error :=
  match settled a with
  | ExecutorReturned _ => None
  | ExecutorThrew e => Some e
  | TimeoutFired => Some (timeoutError t)
  end.

(** The retry condition in the words of the specification. *)
Definition Retryable (retrySchema : list string) (t : Task) (e : Error) : Prop :=
  retryCount t < maxRetries t /\
  exists pattern, In pattern ("Network timeout" :: retrySchema) /\
                  Substring pattern (message e).

(** The specification's reading of [validate]: the source text of the
    first callable predicate that does not return exactly [true]. *)
Fixpoint spec_firstNonTrue (schema : list TaskValidationRule) (t : Task)
  : option string :=
  match schema with
  | [] => None
  | NotAFunction _ :: rest => spec_firstNonTrue rest t
  | Validator src f :: rest =>
      if strict_eq (f t) (VBool true) then spec_firstNonTrue rest t
      else Some src
  end.

Definition spec_validate (schema : list TaskValidationRule) (t : Task) : Prop :=
  (passed (validate schema t) = true <-> spec_firstNonTrue schema t = None) /\
  (forall src, spec_firstNonTrue schema t = Some src ->
     validate schema t = {| passed := false; reason := failure_reason src |}).

End QueueTask.

(* ===================================================================== *)
(** ** src/task-executor.ts *)
(* ===================================================================== *)

Module TaskExecutor.
Import JS QueueTask.

(** An executor as the queue and the worker use it. [exec task] is the
    sequence of attempts [Task.execute] observes when it runs the executor
    on [task]; the hooks may throw, and the queue reads nothing else from
    them. *)
Record Executor : Type := mkExecutor {
  taskType : string;
  validationSchema : list TaskValidationRule;
  retrySchema : list string;
  exec : Task -> nat -> Attempt;
  onFailure : Task -> TaskResult -> Error -> Completion Error unit;
  onComplete : Task -> TaskResult -> Completion Error unit
}.

(** The base class: empty schemas, an [exec] that fulfils at once with
    [{ processed: true }], hooks that do nothing. *)
Definition base (taskType : string) : Executor := {|
  taskType := taskType;
  validationSchema := [];
  retrySchema := [];
  exec := fun _ _ =>
    {| startTime := 0;
       settled := ExecutorReturned {| processed := true; payload := VObj [] |};
       settleTime := 0 |};
  onFailure := fun _ _ _ => Return tt;
  onComplete := fun _ _ => Return tt
|}.

End TaskExecutor.

(* ===================================================================== *)
(** ** src/database-adapter.ts and src/lib/db.ts *)
(* ===================================================================== *)

Module Adapter.
Import JS Util.

Record UpsertArgs : Type := mkUpsertArgs {
  where_ : Value;
  update : Value;
  create : Value
}.

Record UpdateArgs : Type := mkUpdateArgs {
  u_where : Value;
  u_data : Value
}.

(** The client's delegate for one table, [db[table]]: each call acts on the
    database [DB] and fulfils with a row or rejects with what the client
    throws. *)
Record Delegate (DB : Type) : Type := mkDelegate {
  d_upsert : UpsertArgs -> M DB Value Value;
  d_update : UpdateArgs -> M DB Value Value
}.
Arguments d_upsert {DB} _ _.
Arguments d_update {DB} _ _.

(** The test both upsert wrappers make on a caught error. *)
Definition isUniqueConstraintError (err : Value) : bool :=
  hasProperty err "code"
    (Some {| expect_type := Some TString; expect_value := Some (VStr "P202") |}).

(** [PrismaAdapter.upsert(table, data)]: [r] starts out [undefined]. *)
Definition upsert {DB} (table : Delegate DB) (data : UpsertArgs)
  : M DB Value Value :=
  try_catch
    (d_upsert table
       {| where_ := where_ data; update := update data; create := create data |})
    (fun err =>
       if isUniqueConstraintError err
       then try_catch
              (d_update table {| u_where := where_ data; u_data := update data |})
              (fun updateErr => ret VUndefined)
       else ret VUndefined).

Definition call_onComplete {DB} (onComplete : option (Value -> M DB Value unit))
           (result : Value) : M DB Value unit :=
  match onComplete with
  | Some f => f result
  | None => ret tt
  end.

(** [safeUpsert(dbTable, where, insert, onComplete?)] *)
Definition safeUpsert {DB} (dbTable : Delegate DB) (where_ insert : Value)
           (onComplete : option (Value -> M DB Value unit))
  : M DB Value unit :=
  try_catch
    (let* result :=
       d_upsert dbTable {| where_ := where_; update := insert; create := insert |} in
     call_onComplete onComplete result)%js
    (fun err =>
       if isUniqueConstraintError err
       then try_catch
              (let* result :=
                 d_update dbTable {| u_where := where_; u_data := insert |} in
               call_onComplete onComplete result)%js
              (fun updateErr => ret tt)
       else ret tt).

(** The specification's reading of the fallback: a conflict is answered
    by the update, every other error reaches the caller. *)
Definition spec_upsert {DB} (table : Delegate DB) (w u c : Value) (db : DB)
  : Prop :=
  forall err db',
    d_upsert table (mkUpsertArgs w u c) db = (Throw err, db') ->
    (isUniqueConstraintError err = true ->
       upsert table (mkUpsertArgs w u c) db
       = d_update table (mkUpdateArgs w u) db') /\
    (isUniqueConstraintError err = false ->
       fst (upsert table (mkUpsertArgs w u c) db) = Throw err).

(** [waitForDbRecord(dbTable, searchParams, maxAttempts, delayMs)]: the
    [while] loop, whose turns the distance between [attempts] and
    [maxAttempts] bounds; [fuel] is that bound. The sleep between two turns
    changes nothing here. *)
Fixpoint waitLoop {DB} (fuel : nat) (findFirst : Value -> M DB Value Value)
         (searchParams : Value) (attempts maxAttempts : Z) : M DB Value Value :=
  if attempts <? maxAttempts then
    match fuel with
    | O => ret VNull
    | S fuel' =>
        (let* record := findFirst searchParams in
         if truthy record then ret record
         else waitLoop fuel' findFirst searchParams (attempts + 1) maxAttempts)%js
    end
  else ret VNull.

Definition waitForDbRecord {DB} (findFirst : Value -> M DB Value Value)
           (searchParams : Value) (maxAttempts : Z) : M DB Value Value :=
  waitLoop (Z.to_nat maxAttempts) findFirst searchParams 0 maxAttempts.

(** A table whose [findFirst] is counted: the second component of the state
    is the number of queries made so far. *)
Definition counting {DB} (findFirst : Value -> M DB Value Value)
  : Value -> M (DB * Z) Value Value :=
  fun searchParams s =>
    let (c, db') := findFirst searchParams (fst s) in (c, (db', snd s + 1)).

End Adapter.

(* ===================================================================== *)
(** ** The worker runtime (child side) *)
(* ===================================================================== *)

Module WorkerScript.
Import JS QueueTask TaskExecutor.

(** A [taskInfo] message to the parent. *)
Record TaskInfo : Type := mkTaskInfo {
  ti_task : option Task;
  ti_error : string;
  ti_result : TaskResult
}.

(** The module-level state of the script: [taskLoad] and what has been
    handed to [process.send]. *)
Record State : Type := mkState {
  taskLoad : Z;
  outbox : list TaskInfo
}.

(** What the script is started with: [MAX_TASK_LOAD] is
    [Number(process.env.MAX_CONCURRENT_TASKS)], [None] being [NaN]; the
    registry maps a task type to its executor. *)
Record Config : Type := mkConfig {
  WORKER_ID : string;
  MAX_TASK_LOAD : option Z;
  taskEnv : QueueTask.Env;
  taskExecutors : gmap string Executor
}.

Definition App (A : Type) : Type := M State Error A.

Definition m (cfg : Config) (msg : string) : string :=
  "[" +:+ WORKER_ID cfg +:+ "] " +:+ msg.

(** [taskLoad >= MAX_TASK_LOAD]; a comparison with [NaN] is false. *)
Definition atFullLoad (cfg : Config) (s : State) : bool :=
  match MAX_TASK_LOAD cfg with
  | Some max => taskLoad s >=? max
  | None => false
  end.

Definition incrementLoad : App unit :=
  modify (fun s => {| taskLoad := taskLoad s + 1; outbox := outbox s |}).

Definition decrementLoad : App unit :=
  modify (fun s => {| taskLoad := taskLoad s - 1; outbox := outbox s |}).

(** [sendTaskInfo(task, error, result)]: [error] is [None] for [null],
    which [String(error)] renders as ["null"]. *)
Definition sendTaskInfo (task : option Task) (error : option Error)
           (result : TaskResult) : App unit :=
  modify (fun s =>
    {| taskLoad := taskLoad s;
       outbox := outbox s ++
         [{| ti_task := task;
             ti_error := match error with Some e => message e | None => "null" end;
             ti_result := result |}] |}).

(** The part of [withWorkerCapacity] before [fn] is called. *)
Definition enterCapacity (cfg : Config) : App unit :=
  (let* s := get in
   if atFullLoad cfg s
   then throw {| message := m cfg "Currently under full load" |}
   else incrementLoad)%js.

(** [withWorkerCapacity(fn)] *)
Definition withWorkerCapacity {A} (cfg : Config) (fn : App A) : App A :=
  (enterCapacity cfg ;; try_finally fn decrementLoad)%js.

Definition lift {A} (c : Completion Error A) : App A := fun s => (c, s).

Definition initialResult : TaskResult := {| processed := false; payload := VObj [] |}.

(** The closure [processTasks] passes to [withWorkerCapacity]. [execute]
    always answers (lemma [execute_total] below), so its [None] case is
    never taken. *)
Definition taskBody (cfg : Config) (data : TaskOptions) : App unit :=
  let task := fromPlainObject (taskEnv cfg) data in
  match taskExecutors cfg !! type task with
  | Some executor =>
      match execute (exec executor task) (retrySchema executor) task with
      | None => ret tt
      | Some (outcome, task1) =>
          let attempt : Completion Error TaskResult :=
            match outcome with
            | Return result =>
                match onComplete executor task1 result with
                | Return _ => Return result
                | Throw e => Throw e
                end
            | Throw e => Throw e
            end in
          (* [result] holds the executor's value as soon as [execute]
             fulfils, also when [onComplete] throws afterwards. *)
          let result := match outcome with
                        | Return r => r
                        | Throw _ => initialResult
                        end in
          match attempt with
          | Return _ => sendTaskInfo (Some task1) None result
          | Throw error =>
              let task2 := set_error (Some error) (set_status failed task1) in
              (let* _ := lift (onFailure executor task2 result error) in
               sendTaskInfo (Some task2) (Some error) result ;;
               sendTaskInfo (Some task2) None result)%js
          end
      end
  | None =>
      sendTaskInfo (Some task)
        (Some {| message := "No executor for type: " +:+ type task |})
        initialResult
  end.

(** The [catch] and [finally] that [processTasks] wraps around one task. *)
Definition guarded (body : App unit) : App unit :=
  try_finally
    (try_catch body (fun err => sendTaskInfo None (Some err) initialResult))
    decrementLoad.

(** The callback of the [forEach] in [processTasks], run for one task
    without any other task in between. *)
Definition processTask (cfg : Config) (data : TaskOptions) : App unit :=
  guarded (withWorkerCapacity cfg (taskBody cfg data)).

(** The callbacks of one [forEach] all run up to their first suspension
    before any of them resumes: [startTask] is that synchronous prefix (the
    gate and the increment), [finishTask] what runs once the task body, or
    the refusal, is awaited. *)
Definition startTask (cfg : Config) (data : TaskOptions)
  : State -> (TaskOptions * Completion Error unit) * State :=
  fun s => let (c, s') := enterCapacity cfg s in ((data, c), s').

Definition finishTask (cfg : Config) (started : TaskOptions * Completion Error unit)
  : State -> State :=
  fun s =>
    let (data, c) := started in
    snd (guarded
           (match c with
            | Return _ => try_finally (taskBody cfg data) decrementLoad
            | Throw e => throw e
            end) s).

Fixpoint startAll (cfg : Config) (taskData : list TaskOptions) (s : State)
  : list (TaskOptions * Completion Error unit) * State :=
  match taskData with
  | [] => ([], s)
  | data :: rest =>
      let (st, s1) := startTask cfg data s in
      let (sts, s2) := startAll cfg rest s1 in
      (st :: sts, s2)
  end.

(** [processTasks(taskData)]: every task is started, then every task
    settles (here in the order of the array; the counter does not depend on
    that order). *)
Definition processTasks (cfg : Config) (taskData : list TaskOptions)
           (s : State) : State :=
  let (started, s1) := startAll cfg taskData s in
  fold_left (fun acc st => finishTask cfg st acc) started s1.

(** A computation that leaves [taskLoad] as it found it. *)
Definition keepsLoad {A} (c : App A) : Prop :=
  forall s, taskLoad (snd (c s)) = taskLoad s.

(** How many of the started tasks passed the gate. *)
Definition gatePassed (started : list (TaskOptions * Completion Error unit)) : Z :=
  Z.of_nat (length (List.filter
                      (fun st => match snd st with
                                 | Return _ => true
                                 | Throw _ => false
                                 end) started)).

End WorkerScript.

(* ===================================================================== *)
(** ** src/worker.ts and src/worker-manager.ts (parent side) *)
(* ===================================================================== *)

Module Manager.
Import JS QueueTask.

Record WorkerInfo : Type := mkWorkerInfo {
  workerId : option string;
  processId : Z;
  taskLoad : Z;
  maxLoad : Z;
  uptime : Z
}.

(** A message handed to [Worker.send]; tasks travel as the snapshot that is
    serialised at the moment of the call. *)
Inductive WorkerMessage : Type :=
| getWorkerInfo
| setDatabase
| taskSingle (task : Task)
| taskBatch (batch : list Task).

(** The parent-side handle: [sentMessages] is what went to the child
    through [send], in order. *)
Record Worker : Type := mkWorker {
  maxConcurrentTasks : Z;
  cachedInfo : option WorkerInfo;
  cacheInterval : Z;
  sentMessages : list WorkerMessage
}.

(** [new Worker(manager, process, id)] *)
Definition new_Worker : Worker := {|
  maxConcurrentTasks := 10;
  cachedInfo := None;
  cacheInterval := 200;
  sentMessages := []
|}.

(** [worker.send(data)]: every [WorkerMessage] has its [event]. *)
Definition send (data : WorkerMessage) (w : Worker) : Worker := {|
  maxConcurrentTasks := maxConcurrentTasks w;
  cachedInfo := cachedInfo w;
  cacheInterval := cacheInterval w;
  sentMessages := sentMessages w ++ [data]
|}.

(** The manager. [workers] is the [Map] from worker id to handle, in
    insertion order, which is the order [values()] and [forEach] follow;
    [workerFileExists] is what [fs.existsSync] answers for the compiled
    worker script. *)
Record WorkerManager : Type := mkManager {
  taskDirectory : string;
  workerPrefix : string;
  maxWorkers : Z;
  workers : list (string * Worker);
  workerFileExists : bool
}.

Definition with_workers (ws : list (string * Worker)) (mgr : WorkerManager)
  : WorkerManager := {|
  taskDirectory := taskDirectory mgr;
  workerPrefix := workerPrefix mgr;
  maxWorkers := maxWorkers mgr;
  workers := ws;
  workerFileExists := workerFileExists mgr
|}.

(** [Map.prototype.get] and [Map.prototype.set]: [set] on a known key keeps
    its position. *)
Fixpoint map_get (id : string) (ws : list (string * Worker)) : option Worker :=
  match ws with
  | [] => None
  | (k, w) :: rest => if String.eqb id k then Some w else map_get id rest
  end.

Fixpoint map_set (id : string) (w : Worker) (ws : list (string * Worker))
  : list (string * Worker) :=
  match ws with
  | [] => [(id, w)]
  | (k, w') :: rest =>
      if String.eqb id k then (k, w) :: rest else (k, w') :: map_set id w rest
  end.

Definition get (id : string) (mgr : WorkerManager) : option Worker :=
  map_get id (workers mgr).

Definition set (id : string) (w : Worker) (mgr : WorkerManager) : WorkerManager :=
  with_workers (map_set id w (workers mgr)) mgr.

(** [get size()] *)
Definition size (mgr : WorkerManager) : Z := Z.of_nat (length (workers mgr)).

(** The test both [getAvailableWorkers] and [getAvailable] map over the
    handles: the worker was polled and its cached load is below its capacity.
    An entry keeps its id next to the handle, so that the selected worker can
    be addressed afterwards. *)
Definition isAvailable (entry : string * Worker) : bool :=
  match cachedInfo (snd entry) with
  | Some info => taskLoad info <? maxConcurrentTasks (snd entry)
  | None => false
  end.

(** The load of a handle that passed [isAvailable]. *)
Definition loadOf (entry : string * Worker) : Z :=
  match cachedInfo (snd entry) with
  | Some info => taskLoad info
  | None => 0
  end.

(** The sign test of the comparator of [getAvailableWorkers],
    [a.taskLoad / a.max - b.taskLoad / b.max <= 0], by cross
    multiplication (the capacities of available workers are positive). *)
Definition relativeLoad_le (a b : string * Worker) : bool :=
  loadOf a * maxConcurrentTasks (snd b) <=? loadOf b * maxConcurrentTasks (snd a).

(** [Array.prototype.sort] is stable: insertion after the equal elements. *)
Fixpoint insert_sorted (x : string * Worker) (l : list (string * Worker))
  : list (string * Worker) :=
  match l with
  | [] => [x]
  | y :: rest =>
      if relativeLoad_le y x then y :: insert_sorted x rest else x :: y :: rest
  end.

Definition sortByRelativeLoad (l : list (string * Worker)) : list (string * Worker) :=
  fold_left (fun acc x => insert_sorted x acc) l [].

(** [getAvailableWorkers()] *)
Definition getAvailableWorkers (mgr : WorkerManager) : list (string * Worker) :=
  sortByRelativeLoad (List.filter isAvailable (workers mgr)).

(** [#generateId()] *)
Definition generateId (mgr : WorkerManager) : string :=
  workerPrefix mgr +:+ dec (size mgr + 1).

(** [spawn(workerId = this.#generateId())] *)
Definition spawn (workerId : option string)
  : M WorkerManager Error (string * Worker) :=
  fun mgr =>
    let workerId := match workerId with Some i => i | None => generateId mgr end in
    let workerCount := size mgr in
    if workerCount >=? maxWorkers mgr
    then (Throw {| message := "Maximum number of workers reached: "
                     +:+ dec workerCount +:+ "/" +:+ dec (maxWorkers mgr) |}, mgr)
    else if negb (workerFileExists mgr)
    then (Throw {| message := "Worker file not found. Build the package before running." |},
          mgr)
    else (Return (workerId, new_Worker), set workerId new_Worker mgr).

(** The callback of the [reduce] in [getAvailable]. *)
Definition lessBusy (prev current : string * Worker) : string * Worker :=
  if loadOf prev <=? loadOf current then prev else current.

(** The [TypeError] of [reduce] on an empty array. *)
Definition emptyArrayReduce : Error :=
  {| message := "Reduce of empty array with no initial value" |}.

(** [array.reduce(f)] without an initial value. *)
Definition reduce {A} (f : A -> A -> A) (l : list A) : Completion Error A :=
  match l with
  | [] => Throw emptyArrayReduce
  | x :: rest => Return (fold_left f rest x)
  end.

(** [getAvailable()]: the declared result is [Worker | undefined]. *)
Definition getAvailable : M WorkerManager Error (option (string * Worker)) :=
  fun mgr =>
    let workerCount := size mgr in
    if workerCount =? 0
    then match spawn None mgr with
         | (Return w, mgr') => (Return (Some w), mgr')
         | (Throw e, mgr') => (Throw e, mgr')
         end
    else
      let availableWorker := List.filter isAvailable (workers mgr) in
      if (Z.of_nat (length availableWorker) =? 0) && (maxWorkers mgr >? workerCount)
      then match spawn None mgr with
           | (Return w, mgr') => (Return (Some w), mgr')
           | (Throw e, mgr') => (Throw e, mgr')
           end
      else match reduce lessBusy availableWorker with
           | Return leastBusy => (Return (Some leastBusy), mgr)
           | Throw e => (Throw e, mgr)
           end.

(** [Map.prototype.delete] *)
Definition map_delete (id : string) (ws : list (string * Worker))
  : list (string * Worker) :=
  List.filter (fun entry => negb (String.eqb id (fst entry))) ws.

(** [remove(id)]: the handle, if there is one, is closed and its entry
    deleted; the result is that of [Map.delete]. *)
Definition remove (id : string) (mgr : WorkerManager) : bool * WorkerManager :=
  (match get id mgr with Some _ => true | None => false end,
   with_workers (map_delete id (workers mgr)) mgr).

(** [broadcast(message)] *)
Definition broadcast (message : WorkerMessage) (mgr : WorkerManager)
  : WorkerManager :=
  with_workers (map (fun entry => (fst entry, send message (snd entry)))
                    (workers mgr)) mgr.

(** *** The exit listener of a handle ([#initialize] in [src/worker.ts]) *)






(** The callback of the restart timer: [remove(this.id); spawn(this.id)]. *)
Definition restart (id : string) : M WorkerManager Error (string * Worker) :=
  fun mgr => spawn (Some id) (snd (remove id mgr)).

End Manager.

(* ===================================================================== *)
(** ** index.ts: the queue facade *)
(* ===================================================================== *)

Module Queue.
Import JS QueueTask TaskExecutor.

(** Tasks are objects: the stack, the arrays handed to the strategies and
    the strategies' local variables all hold references into one store, so
    a mutation made through one of them is seen through the others. *)
Definition TaskRef : Type := nat.

(** What the facade and the strategies print. *)
Inductive LogEntry : Type :=
| LogAdded (name uid : string)
| LogRemoved (name uid : string)
| WarnNoExecutor (name : string)
| WarnMaxRetries (name : string)
| LogError (message : string).

(** The argument of [store.saveTask]. *)
Record WorkerTaskStatus : Type := mkStatus {
  ws_task : Task;
  ws_error : string;
  ws_result : option TaskResult
}.

(** The task store, as far as a dispatch cycle touches it: whether an
    adaptor is attached, and the calls of [saveTask] in order. *)
Record TaskStore : Type := mkStore {
  dbAdaptor : bool;
  saveTaskCalls : list WorkerTaskStatus
}.

Record Queue : Type := mkQueue {
  id : string;
  objects : TaskRef -> Task;
  taskStack : list TaskRef;
  workers : Manager.WorkerManager;
  taskExecutors : gmap string Executor;
  store : TaskStore;
  console : list LogEntry;
  clock : Z
}.

Definition with_objects (o : TaskRef -> Task) (q : Queue) : Queue :=
  mkQueue (id q) o (taskStack q) (workers q) (taskExecutors q) (store q)
          (console q) (clock q).

Definition with_taskStack (st : list TaskRef) (q : Queue) : Queue :=
  mkQueue (id q) (objects q) st (workers q) (taskExecutors q) (store q)
          (console q) (clock q).

Definition with_workers (w : Manager.WorkerManager) (q : Queue) : Queue :=
  mkQueue (id q) (objects q) (taskStack q) w (taskExecutors q) (store q)
          (console q) (clock q).

Definition with_store (s : TaskStore) (q : Queue) : Queue :=
  mkQueue (id q) (objects q) (taskStack q) (workers q) (taskExecutors q) s
          (console q) (clock q).

Definition with_console (c : list LogEntry) (q : Queue) : Queue :=
  mkQueue (id q) (objects q) (taskStack q) (workers q) (taskExecutors q)
          (store q) c (clock q).

Definition log (e : LogEntry) (q : Queue) : Queue :=
  with_console (console q ++ [e]) q.

(** Assignment to the fields of the object behind a reference. *)
Definition mutate (r : TaskRef) (f : Task -> Task) (q : Queue) : Queue :=
  with_objects (fun r' => if Nat.eqb r' r then f (objects q r) else objects q r') q.

(** [array.findIndex(p)]; [None] is [-1]. *)
Fixpoint findIndex {A} (p : A -> bool) (l : list A) : option nat :=
  match l with
  | [] => None
  | x :: rest =>
      if p x then Some O
      else match findIndex p rest with
           | Some i => Some (S i)
           | None => None
           end
  end.

(** [array.splice(index, 1)]: what is left in the array. *)
Definition splice1 {A} (index : nat) (l : list A) : list A :=
  firstn index l ++ skipn (S index) l.

Definition hasUid (q : Queue) (taskId : string) (r : TaskRef) : bool :=
  String.eqb (uid (objects q r)) taskId.

(** [add(task)] *)
Definition add (task : TaskRef) (q : Queue) : Queue :=
  log (LogAdded (name (objects q task)) (uid (objects q task)))
      (with_taskStack (taskStack q ++ [task]) q).

(** [remove(taskId, silent = false)] *)
Definition remove (taskId : string) (silent : bool) (q : Queue) : bool * Queue :=
  match findIndex (hasUid q taskId) (taskStack q) with
  | Some index =>
      let task := nth index (taskStack q) O in
      let q1 := with_taskStack (splice1 index (taskStack q)) q in
      (true,
       if silent then q1 else log (LogRemoved (name (objects q task)) taskId) q1)
  | None => (false, q)
  end.

(** [getTask(taskId)] *)
Definition getTask (taskId : string) (q : Queue) : option TaskRef :=
  find (hasUid q taskId) (taskStack q).

(** [cancel(taskId)] *)
Definition cancel (taskId : string) (q : Queue) : bool * Queue :=
  match getTask taskId q with
  | Some pendingTask =>
      (true, snd (remove taskId false
                    (mutate pendingTask (QueueTask.cancel (clock q)) q)))
  | None => (false, q)
  end.

(** [getTasks()] and [getPendingTasks()] *)
Definition getTasks (q : Queue) : list TaskRef := taskStack q.

Definition getPendingTasks (q : Queue) : list TaskRef :=
  List.filter (fun r => readyToRun (clock q) (objects q r)) (taskStack q).

(** [clear()] *)
Definition clear (q : Queue) : Queue := with_taskStack [] q.

(** [store.saveTask(status)], up to the call it issues. *)
Definition saveTask (status : WorkerTaskStatus) (q : Queue) : Queue :=
  with_store {| dbAdaptor := dbAdaptor (store q);
                saveTaskCalls := saveTaskCalls (store q) ++ [status] |} q.

(** The comparator of [scheduleTasks] puts [a] before [b] when it returns
    a negative number and leaves them as they are when it returns [0]: [a]
    may stay in front of [b] when [b]'s priority is not the higher one. *)
Definition staysBefore (q : Queue) (a b : TaskRef) : bool :=
  priority (objects q b) <=? priority (objects q a).

(** [Array.prototype.sort] is stable: a task goes in behind the tasks that
    may stay in front of it. *)
Fixpoint insertByPriority (q : Queue) (x : TaskRef) (l : list TaskRef)
  : list TaskRef :=
  match l with
  | [] => [x]
  | y :: rest =>
      if staysBefore q y x then y :: insertByPriority q x rest
      else x :: y :: rest
  end.

Definition sortByPriority (q : Queue) (l : list TaskRef) : list TaskRef :=
  fold_left (fun acc x => insertByPriority q x acc) l [].

(** [scheduleTasks()] *)
Definition scheduleTasks (q : Queue) : Queue :=
  with_taskStack (sortByPriority q (taskStack q)) q.

End Queue.

(* ===================================================================== *)
(** ** The dispatch strategies [single] and [batch] *)
(* ===================================================================== *)

Module Strategies.
Import JS QueueTask TaskExecutor Queue.

Record Stats : Type := mkStats {
  tasksSent : Z;
  noWorkerAvailable : Z;
  noExecutorFound : Z;
  validationFailed : Z
}.

Definition noStats : Stats := mkStats 0 0 0 0.

Definition sent (n : Z) (s : Stats) : Stats :=
  mkStats (tasksSent s + n) (noWorkerAvailable s) (noExecutorFound s)
          (validationFailed s).
Definition noWorker (s : Stats) : Stats :=
  mkStats (tasksSent s) (noWorkerAvailable s + 1) (noExecutorFound s)
          (validationFailed s).
Definition noExecutor (s : Stats) : Stats :=
  mkStats (tasksSent s) (noWorkerAvailable s) (noExecutorFound s + 1)
          (validationFailed s).
Definition invalid (s : Stats) : Stats :=
  mkStats (tasksSent s) (noWorkerAvailable s) (noExecutorFound s)
          (validationFailed s + 1).

Definition total (s : Stats) : Z :=
  tasksSent s + noWorkerAvailable s + noExecutorFound s + validationFailed s.

Definition App (A : Type) : Type := M Queue.Queue Error A.

Definition act (f : Queue.Queue -> Queue.Queue) : App unit := modify f.

(** Run a manager method on [queue.workers]. *)
Definition onWorkers {A} (m : M Manager.WorkerManager Error A) : App A :=
  fun q => let (c, mgr) := m (workers q) in (c, with_workers mgr q).

(** [worker.send(message)] on the handle registered under [wid]. *)
Definition sendTo (wid : string) (message : Manager.WorkerMessage) : App unit :=
  act (fun q =>
    match Manager.get wid (workers q) with
    | Some w => with_workers (Manager.set wid (Manager.send message w) (workers q)) q
    | None => q
    end).

Definition maxRetriesError : string := "Max retries reached".

Definition validationError (t : Task) (reason : string) : Error :=
  {| message := "Task " +:+ name t +:+ " validation failed: " +:+ reason |}.

(** What became of one task in the checks both strategies make before
    sending it. *)
Inductive Checked : Type :=
| Passed
| NoExecutor
| Exhausted
| Invalid.

(** The executor lookup and the validation of one task: the block both
    [single] and [batch] carry in their loop body. It returns the updated
    counters and what became of the task. *)
Definition check (stats : Stats) (task : TaskRef) : App (Stats * Checked) :=
  (let* q := get in
   let t := objects q task in
   match taskExecutors q !! type t with
   | None =>
       act (log (WarnNoExecutor (name t))) ;;
       act (fun q => snd (remove (uid t) false q)) ;;
       ret (noExecutor stats, NoExecutor)
   | Some executor =>
       let v := validate (validationSchema executor) t in
       if negb (passed v) then
         if retryCount t >=? maxRetries t then
           act (log (WarnMaxRetries (name t))) ;;
           act (fun q => mutate task
                  (fun t => set_failedAt (Some (clock q)) (set_status failed t)) q) ;;
           act (fun q => snd (remove (uid t) false q)) ;;
           act (fun q => saveTask {| ws_task := objects q task;
                                     ws_error := maxRetriesError;
                                     ws_result := None |} q) ;;
           ret (stats, Exhausted)
         else
           let stats := invalid stats in
           let error := validationError t (reason v) in
           act (mutate task
                  (fun t => set_retryCount (retryCount t + 1) (set_status failed t))) ;;
           act (mutate task (addError error)) ;;
           act (log (LogError (message error))) ;;
           let* q := get in
           let* _ := (fun q' => (onFailure executor (objects q task)
                                   {| processed := false; payload := VObj [] |} error,
                                 q')) in
           ret (stats, Invalid)
       else ret (stats, Passed)
   end)%js.

(** The body of the loop of [single]. *)
Definition single_step (stats : Stats) (task : TaskRef) : App Stats :=
  (let* worker := onWorkers Manager.getAvailable in
   match worker with
   | None => ret (noWorker stats)
   | Some (wid, _) =>
       let* (stats, outcome) := check stats task in
       match outcome with
       | Passed =>
           let* q := get in
           sendTo wid (Manager.taskSingle (objects q task)) ;;
           act (fun q => snd (remove (uid (objects q task)) true q)) ;;
           ret (sent 1 stats)
       | _ => ret stats
       end
   end)%js.

Fixpoint single_loop (stats : Stats) (tasks : list TaskRef) : App Stats :=
  match tasks with
  | [] => ret stats
  | task :: rest =>
      (let* stats := single_step stats task in single_loop stats rest)%js
  end.

(** [single(queue, tasks)] *)
Definition single (tasks : list TaskRef) : App Stats := single_loop noStats tasks.

(** The inner loop of [batch]: every task of the chunk is checked, and the
    loop only moves on to the next task whatever the outcome. *)
Fixpoint batch_checks (stats : Stats) (chunk : list TaskRef) : App Stats :=
  match chunk with
  | [] => ret stats
  | task :: rest =>
      (let* (stats, _) := check stats task in batch_checks stats rest)%js
  end.

Fixpoint removeAll (chunk : list TaskRef) : App unit :=
  match chunk with
  | [] => ret tt
  | task :: rest =>
      (act (fun q => snd (remove (uid (objects q task)) true q)) ;;
       removeAll rest)%js
  end.

(** The body of the outer loop of [batch], for one available worker;
    [tasks] is the array the caller passed, which [splice] shortens. *)
Definition batch_step (acc : Stats * list TaskRef) (worker : string * Manager.Worker)
  : App (Stats * list TaskRef) :=
  let (stats, tasks) := acc in
  let capacity :=
    Manager.maxConcurrentTasks (snd worker) - Manager.loadOf worker in
  if (capacity <=? 0) || (Z.of_nat (length tasks) =? 0)
  then ret (noWorker stats, tasks)
  else
    let chunk := firstn (Z.to_nat capacity) tasks in
    let tasks := skipn (Z.to_nat capacity) tasks in
    if Z.of_nat (length chunk) =? 0 then ret (stats, tasks)
    else
      (let* stats := batch_checks stats chunk in
       let* q := get in
       sendTo (fst worker) (Manager.taskBatch (map (objects q) chunk)) ;;
       removeAll chunk ;;
       ret (sent (Z.of_nat (length chunk)) stats, tasks))%js.

Fixpoint batch_loop (acc : Stats * list TaskRef)
         (availableWorkers : list (string * Manager.Worker))
  : App (Stats * list TaskRef) :=
  match availableWorkers with
  | [] => ret acc
  | worker :: rest =>
      (let* acc := batch_step acc worker in batch_loop acc rest)%js
  end.

(** [batch(queue, tasks)]: the counters, and what is left of [tasks]. *)
Definition batch (tasks : list TaskRef) : App (Stats * list TaskRef) :=
  (let* q := get in
   batch_loop (noStats, tasks) (Manager.getAvailableWorkers (workers q)))%js.

(** *** Measures used to state the accounting of a dispatch cycle *)

(** The number of [saveTask] calls made so far; the strategies only call
    it for a task dropped with its retries exhausted. *)
Definition saves (q : Queue.Queue) : Z :=
  Z.of_nat (length (saveTaskCalls (store q))).

(** Whether the checks took a task out of the cycle. *)
Definition counted (o : Checked) : Z :=
  match o with Passed => 0 | _ => 1 end.

Definition rejected (s : Stats) : Z := noExecutorFound s + validationFailed s.

End Strategies.

(* ===================================================================== *)
(** ** Concrete scenarios *)
(* ===================================================================== *)

Module Scenarios.
Import JS QueueTask TaskExecutor.

Definition taskEnv : Env := mkEnv None None 1700000000000 "k3j9x0a1b".

(** *** Tasks *)

(** [task.maxRetries = 0] was assigned after construction, to switch the
    retries off; everything else is as the constructor left it. *)
Definition noRetryTask : Task := {|
  uid := "task-1"; name := "Send mail"; type := "mail";
  description := Some "welcome mail";
  status := pending; progress := 0;
  startedAt := None; failedAt := None; completedAt := None;
  promise := Unsettled;
  priority := 2; retryCount := 0; maxRetries := 0; delay := 0;
  timeout := 5000; runAt := None;
  data := VObj [("to", VStr "a@b.c")];
  userId := None; metadata := []; error := None; errorHistory := []
|}.

Definition mailOptions : TaskOptions :=
  mkOptions (Some "task-1") "Send mail" "mail" (Some "welcome mail")
            (Some 2) (Some 3) (Some 0) (Some 5000)
            (VObj [("to", VStr "a@b.c")]) None (Some []) None.

Definition mailTask : Task := new_Task taskEnv mailOptions.

Definition twoFailing : list TaskValidationRule :=
  [ Validator "(task) => hasProperty(task.data, 'email')" (fun _ => VBool false);
    Validator "(task) => Array.isArray(task.data.sizes)" (fun _ => VBool false) ].

(** *** Attempts *)

Definition done : TaskResult := {| processed := true; payload := VObj [("ok", VNum 1)] |}.
Definition notDone : TaskResult := {| processed := false; payload := VObj [] |}.

Definition succeeds : nat -> Attempt :=
  fun _ => {| startTime := 100; settled := ExecutorReturned done; settleTime := 140 |}.

Definition declines : nat -> Attempt :=
  fun _ => {| startTime := 100; settled := ExecutorReturned notDone; settleTime := 140 |}.

(** The executor sleeps longer than the task's timeout, on every attempt. *)
Definition tooSlow : nat -> Attempt :=
  fun k => {| startTime := 100 + 5000 * Z.of_nat k;
              settled := TimeoutFired;
              settleTime := 5100 + 5000 * Z.of_nat k |}.

(** *** The adapter *)

Definition recordNotFound : Value :=
  VObj [("code", VStr "P2025"); ("message", VStr "Record to update not found.")].

Definition uniqueConflict : Value :=
  VObj [("code", VStr "P202"); ("message", VStr "Unique constraint failed")].

Definition brokenTable : Adapter.Delegate unit := {|
  Adapter.d_upsert := fun _ => throw recordNotFound;
  Adapter.d_update := fun args => ret (Adapter.u_data args)
|}.

Definition conflictingTable : Adapter.Delegate unit := {|
  Adapter.d_upsert := fun _ => throw uniqueConflict;
  Adapter.d_update := fun args => ret (Adapter.u_data args)
|}.

Definition whereUid : Value := VObj [("uid", VStr "task-1")].

Definition row : Value :=
  VObj [("uid", VStr "task-1"); ("status", VStr "completed")].

(** *** The worker runtime *)

Definition workerConfig : WorkerScript.Config := {|
  WorkerScript.WORKER_ID := "Anqueue-worker-1";
  WorkerScript.MAX_TASK_LOAD := Some 3;
  WorkerScript.taskEnv := taskEnv;
  WorkerScript.taskExecutors := {[ "noop" := base "noop" ]}
|}.

Definition noopOptions : TaskOptions :=
  mkOptions (Some "task-7") "No operation" "noop" (Some "does nothing")
            (Some 0) (Some 3) None (Some 5000) (VObj []) None None None.

Definition idle : WorkerScript.State :=
  {| WorkerScript.taskLoad := 0; WorkerScript.outbox := [] |}.

(** *** The worker pool *)

Definition polled (wid : string) (load : Z) : Manager.Worker := {|
  Manager.maxConcurrentTasks := 10;
  Manager.cachedInfo :=
    Some {| Manager.workerId := Some wid; Manager.processId := 4242;
            Manager.taskLoad := load; Manager.maxLoad := 10;
            Manager.uptime := 12 |};
  Manager.cacheInterval := 200;
  Manager.sentMessages := []
|}.

Definition pool (maxWorkers : Z) (ws : list (string * Manager.Worker))
  : Manager.WorkerManager := {|
  Manager.taskDirectory := "./tasks";
  Manager.workerPrefix := "Anqueue-worker-";
  Manager.maxWorkers := maxWorkers;
  Manager.workers := ws;
  Manager.workerFileExists := true
|}.

(** One worker, polled at its full load of ten, in a pool of at most one. *)
Definition saturatedManager : Manager.WorkerManager :=
  pool 1 [("Anqueue-worker-1", polled "Anqueue-worker-1" 10)].

(** The pool right after [init()] with [maxWorkers = 1]: the first worker is
    there and has not been polled yet. *)
Definition unpolledManager : Manager.WorkerManager :=
  pool 1 [("Anqueue-worker-1", Manager.new_Worker)].

Definition onePool : Manager.WorkerManager :=
  pool 3 [("Anqueue-worker-1", polled "Anqueue-worker-1" 0)].

Definition twoPool : Manager.WorkerManager :=
  pool 3 [("Anqueue-worker-1", polled "Anqueue-worker-1" 4);
          ("Anqueue-worker-2", polled "Anqueue-worker-2" 2)].

(** *** Queues *)

(** An executor whose only validator is [(t) => false]. *)
Definition strict : Executor := {|
  taskType := "strict";
  validationSchema := [Validator "(t) => false" (fun _ => VBool false)];
  retrySchema := [];
  exec := exec (base "strict");
  onFailure := fun _ _ _ => Return tt;
  onComplete := fun _ _ => Return tt
|}.

Definition job (n : Z) (type : string) (maxRetries : option Z) : Task :=
  new_Task taskEnv
    (mkOptions (Some ("task-" +:+ dec n)) ("Job " +:+ dec n) type None
               None maxRetries None None (VObj []) None None None).

Definition queueOf (objects : nat -> Task) (stack : list nat)
           (mgr : Manager.WorkerManager) : Queue.Queue := {|
  Queue.id := "Anqueue";
  Queue.objects := objects;
  Queue.taskStack := stack;
  Queue.workers := mgr;
  Queue.taskExecutors := {[ "strict" := strict; "noop" := base "noop" ]};
  Queue.store := {| Queue.dbAdaptor := false; Queue.saveTaskCalls := [] |};
  Queue.console := [];
  Queue.clock := 1700000000500
|}.

(** One task of type [strict] that may be retried once. *)
Definition strictQueue : Queue.Queue :=
  queueOf (fun _ => job 1 "strict" (Some 1)) [O] onePool.

(** The same queue one dispatch cycle later: the task failed its
    validation once and has used up its retry. *)
Definition exhaustedQueue : Queue.Queue :=
  snd (Strategies.single [O] strictQueue).

(** Four ready tasks for one idle worker with ten slots ([4 > 10 / 3], so
    [runTasks] picks [batch]); the second task has a type nobody
    registered. *)
Definition mixedObjects (r : nat) : Task :=
  match r with
  | 1%nat => job 2 "ghost" None
  | _ => job (Z.of_nat r + 1) "noop" None
  end.

Definition mixedQueue : Queue.Queue :=
  queueOf mixedObjects [0; 1; 2; 3]%nat onePool.

(** Three tasks with uids [a], [b], [a]. *)
Definition named (r : nat) : Task :=
  match r with
  | 1%nat => new_Task taskEnv
               (mkOptions (Some "b") "second" "noop" None None None None None
                          (VObj []) None None None)
  | _ => new_Task taskEnv
           (mkOptions (Some "a") "first or third" "noop" None None None None
                      None (VObj []) None None None)
  end.

Definition namedQueue : Queue.Queue := queueOf named [0; 1; 2]%nat onePool.

End Scenarios.

(* ===================================================================== *)
(** ** src/lib/files.ts *)
(* ===================================================================== *)

Module Files.
Import JS.

Definition slash : ascii := ascii_of_nat 47.
Definition dot : ascii := ascii_of_nat 46.

(** [s.slice(0, n)] and [s.slice(n)] *)
Fixpoint slice_to (n : nat) (s : string) : string :=
  match n, s with
  | S n', String c s' => String c (slice_to n' s')
  | _, _ => EmptyString
  end.

Fixpoint slice_from (n : nat) (s : string) : string :=
  match n, s with
  | S n', String _ s' => slice_from n' s'
  | _, _ => s
  end.

(** [s.lastIndexOf(c)] for a single character; [None] is [-1]. *)
Fixpoint lastIndexOf (c : ascii) (s : string) : option nat :=
  match s with
  | EmptyString => None
  | String d s' =>
      match lastIndexOf c s' with
      | Some i => Some (S i)
      | None => if Ascii.eqb d c then Some O else None
      end
  end.

(** [path.basename(p)] on POSIX paths: the slashes at the end are dropped,
    and what follows the last slash left is the result. *)
Fixpoint dropTrailingSlashes (s : string) : string :=
  match s with
  | EmptyString => EmptyString
  | String c s' =>
      match dropTrailingSlashes s' with
      | EmptyString => if Ascii.eqb c slash then EmptyString
                       else String c EmptyString
      | r => String c r
      end
  end.

Definition basename (p : string) : string :=
  let trimmed := dropTrailingSlashes p in
  match lastIndexOf slash trimmed with
  | Some i => slice_from (S i) trimmed
  | None => trimmed
  end.

Record FileParts : Type := mkParts {
  extension : string;
  filename : string;
  nameWithoutExtension : string
}.

(** [getFileParts(filename)] *)
Definition getFileParts (path : string) : FileParts :=
  let base := basename path in
  match lastIndexOf dot base with
  | None | Some O =>
      {| extension := ""; filename := base; nameWithoutExtension := base |}
  | Some lastDot =>
      {| extension := slice_from (S lastDot) base;
         filename := base;
         nameWithoutExtension := slice_to lastDot base |}
  end.

End Files.

(* ===================================================================== *)
(** ** src/task-registry.ts *)
(* ===================================================================== *)

Module Registry.
Import JS QueueTask Files.

(** [s.endsWith(suffix)] and [s.startsWith(p)] *)
Definition endsWith (s suffix : string) : bool :=
  (String.length suffix <=? String.length s)%nat
  && String.eqb (slice_from (String.length s - String.length suffix) s) suffix.

Definition startsWith (s p : string) : bool := String.prefix p s.

(** The filter [initialize] applies to the entries of the task directory. *)
Definition isExecutorFile (file : string) : bool :=
  (endsWith file ".ts" || endsWith file ".js")
  && negb (endsWith file ".test.ts")
  && negb (startsWith file ".")
  && negb (includes file ".copy").

(** The type [register(importPath)] gives the executor when none is
    passed. *)
Definition taskTypeOf (importPath : string) : string :=
  nameWithoutExtension (getFileParts importPath).

(** An entry of [invalidEntries]. *)
Record InvalidEntry : Type := mkInvalid {
  ie_index : nat;
  ie_value : TaskValidationRule;
  ie_reason : string
}.

(** The task every validator is tried on. *)
Definition dummyTask (env : Env) (taskType : string) : Task :=
  new_Task env
    (mkOptions None "dummyTask" taskType (Some "dummy validation task")
               None None None None VUndefined None None None).

(** Why the callback of the [filter] in [#validateExecutorModule] drops an
    entry, if it does. *)
Definition rejection (env : Env) (taskType : string) (v : TaskValidationRule)
  : option string :=
  match v with
  | NotAFunction _ => Some "validator is not a function"
  | Validator _ f =>
      if TypeString_eqb (typeof (f (dummyTask env taskType))) TBoolean
      then None
      else Some "validator does not resolve to boolean"
  end.

(** The sanitisation of a validation schema, from index [i] on: what is
    kept, and the entries recorded in [invalidEntries]. [envAt i] is the
    clock and random suffix at hand when the dummy task for entry [i] is
    built. *)
Fixpoint sanitizeFrom (envAt : nat -> Env) (taskType : string) (i : nat)
         (schema : list TaskValidationRule)
  : list TaskValidationRule * list InvalidEntry :=
  match schema with
  | [] => ([], [])
  | v :: rest =>
      let (clean, invalid) := sanitizeFrom envAt taskType (S i) rest in
      match rejection (envAt i) taskType v with
      | None => (v :: clean, invalid)
      | Some why => (clean, mkInvalid i v why :: invalid)
      end
  end.

Definition sanitize (envAt : nat -> Env) (taskType : string)
           (schema : list TaskValidationRule)
  : list TaskValidationRule * list InvalidEntry :=
  sanitizeFrom envAt taskType O schema.

End Registry.

(* ===================================================================== *)
(** ** index.ts: one dispatch cycle *)
(* ===================================================================== *)

Module Facade.
Import JS QueueTask Queue Strategies.

(** [#getStrategy(taskLoad)]: [taskLoad > maxBatchedTasks / 3], decided
    without the division. *)
Definition getStrategy (taskLoad : Z) (q : Queue.Queue) : string :=
  let maxBatchedTasks :=
    fold_left (fun acc current => acc + current)
              (map (fun entry => Manager.maxConcurrentTasks (snd entry))
                   (Manager.workers (workers q))) 0 in
  if 3 * taskLoad >? maxBatchedTasks then "batch" else "single".

(** [runTasks(tasks?)]; the console lines are left out. *)
Definition runTasks (tasks : option (list TaskRef)) : App Stats :=
  (let* q := get in
   let tasks := match tasks with Some l => l | None => getPendingTasks q end in
   let taskLoad := Z.of_nat (length tasks) in
   let sendStrategy := getStrategy taskLoad q in
   if taskLoad =? 0 then ret noStats
   else
     (if taskLoad >? 1 then act scheduleTasks else ret tt) ;;
     let* q := get in
     let* maxTasksAbleToSend :=
       (fun s => (Manager.reduce (fun acc curr => acc + curr)
                    (map (fun entry => Manager.maxConcurrentTasks (snd entry)
                                       - Manager.loadOf entry)
                         (Manager.workers (workers q))), s)) in
     if String.eqb sendStrategy "single" then single tasks
     else let* result := batch tasks in ret (fst result))%js.

End Facade.

(* ===================================================================== *)
(** ** src/lib/files.ts: [changeFileExtensions] *)
(* ===================================================================== *)

Module Extensions.
Import JS Files.

(** The optional third argument, ["with"] or ["without"]. *)
Inductive Only : Type := With | Without.

(** [extension.replace(/^\./, "")] *)
Definition stripLeadingDot (extension : string) : string :=
  match extension with
  | String c rest => if Ascii.eqb c dot then rest else extension
  | EmptyString => EmptyString
  end.

(** The [flatMap] over the file names, for one extension. *)
Definition withExtension (filenames : list string) (normalizedExtension : string)
  : list string :=
  flat_map
    (fun filename =>
       let parts := getFileParts filename in
       let hasExtension := String.eqb (extension parts) normalizedExtension in
       if hasExtension then [nameWithoutExtension parts; filename]
       else [filename; filename +:+ "." +:+ normalizedExtension])
    filenames.

(** The body of the [forEach] over the extensions: the first [if] has no
    [else], the second one has. *)
Definition addExtension (filenames : list string) (only : option Only)
           (result : list string) (extension : string) : list string :=
  let normalizedExtension := stripLeadingDot extension in
  let withExtension := withExtension filenames normalizedExtension in
  let result := match only with
                | Some With => withExtension
                | _ => result
                end in
  match only with
  | Some Without => result
  | _ => result ++ withExtension
  end.

(** [[...new Set(result)]]: the first occurrence of every element, in
    order. *)
Definition visit (seen : list string) (x : string) : list string :=
  if existsb (String.eqb x) seen then seen else seen ++ [x].

Definition unique (result : list string) : list string :=
  fold_left visit result [].

(** [changeFileExtensions(filenames, extensions, only?)] *)
Definition changeFileExtensions (filenames extensions : list string)
           (only : option Only) : list string :=
  unique (fold_left (addExtension filenames only) extensions []).

End Extensions.

(* ===================================================================== *)
(** ** Notions and scenarios for the further properties *)
(* ===================================================================== *)

Module Notions.
Import JS QueueTask.


(** Every attempt from the [k]-th on ends in an error the retry schema
    accepts. *)
Definition AlwaysRetryable (run : nat -> Attempt) (rs : list string) (t : Task)
  : Prop :=
  forall k, exists e, failure (run k) t = Some e /\ shouldRetry e rs = true.

Definition isCallable (v : TaskValidationRule) : bool :=
  match v with
  | Validator _ _ => true
  | NotAFunction _ => false
  end.

(** The stable sort both [scheduleTasks] and [getAvailableWorkers] rely
    on, over any comparator: [keep a b] says that [a] may stay in front of
    [b]. *)
Fixpoint insertBy {A} (keep : A -> A -> bool) (x : A) (l : list A) : list A :=
  match l with
  | [] => [x]
  | y :: rest => if keep y x then y :: insertBy keep x rest else x :: y :: rest
  end.

Definition Keeps {A} (keep : A -> A -> bool) (a b : A) : Prop := keep a b = true.

Definition sortBy {A} (keep : A -> A -> bool) (l : list A) : list A :=
  fold_left (fun acc x => insertBy keep x acc) l [].

(** The tasks of a stack that have priority [p], in the order of the stack. *)
Definition withPriority (q : Queue.Queue) (p : Z) (l : list Queue.TaskRef)
  : list Queue.TaskRef :=
  List.filter (fun r => priority (Queue.objects q r) =? p) l.

(** [m] keeps the property [P] of the state, however it completes. *)
Definition preserves {S E A} (P : S -> Prop) (m : M S E A) : Prop :=
  forall s, P s -> P (snd (m s)).

(** No task has used more retries than it is allowed. *)
Definition RetriesBounded (q : Queue.Queue) : Prop :=
  forall r, retryCount (Queue.objects q r) <= maxRetries (Queue.objects q r).

(** The pool is a [Map], so no id occurs twice, and it holds no more
    handles than [maxWorkers]. *)
Definition PoolOK (mgr : Manager.WorkerManager) : Prop :=
  List.NoDup (map fst (Manager.workers mgr)) /\
  Manager.size mgr <= Manager.maxWorkers mgr.

(** [a.taskLoad / a.maxConcurrentTasks <= b.taskLoad / b.maxConcurrentTasks]
    for handles of positive capacity. *)
Definition RelativeLoadLe (a b : string * Manager.Worker) : Prop :=
  Manager.loadOf a * Manager.maxConcurrentTasks (snd b)
  <= Manager.loadOf b * Manager.maxConcurrentTasks (snd a).

(** The two messages a worker sends about a task whose execution threw:
    the first carries the error, the second reports the same task with the
    error ["null"]. *)
Definition FailureThenPlain (msgs : list WorkerScript.TaskInfo) : Prop :=
  exists t e r,
    msgs = [WorkerScript.mkTaskInfo (Some t) (message e) r;
            WorkerScript.mkTaskInfo (Some t) "null" r] /\
    status t = failed /\ error t = Some e.

End Notions.

Module MoreScenarios.
Import JS QueueTask TaskExecutor Scenarios.

(** The stack [a, b, a] of [namedQueue], with a fourth task object, of uid
    [d], that is not in the stack. *)
Definition lettered (r : nat) : Task :=
  match r with
  | 3%nat => new_Task taskEnv
               (mkOptions (Some "d") "fourth" "noop" None None None None None
                          (VObj []) None None None)
  | _ => named r
  end.

Definition letteredQueue : Queue.Queue := queueOf lettered [0; 1; 2]%nat onePool.

(** Three tasks waiting in a queue whose pool has no worker yet. *)
Definition unstaffedQueue : Queue.Queue := queueOf named [0; 1; 2]%nat (pool 3 []).

(** A pool of worker 1 and worker 2 after worker 1 exited cleanly: the
    next generated id is that of worker 2. *)
Definition shrunkPool : Manager.WorkerManager :=
  snd (Manager.remove "Anqueue-worker-1" twoPool).

(** A table whose row shows up at the third query: the state is the number
    of queries still to come back empty. *)
Definition lateRow : Value -> M nat Value Value :=
  fun _ pending =>
    match pending with
    | O => (Return row, O)
    | S n => (Return VNull, n)
    end.

(** A task whose executor throws an error that is not retried. *)
Definition crashing : Executor := {|
  TaskExecutor.taskType := "noop";
  validationSchema := [];
  retrySchema := [];
  exec := fun _ _ =>
    {| startTime := 0;
       settled := ExecutorThrew {| message := "disk full" |};
       settleTime := 0 |};
  onFailure := fun _ _ _ => Return tt;
  onComplete := fun _ _ => Return tt
|}.

Definition crashingConfig : WorkerScript.Config := {|
  WorkerScript.WORKER_ID := "Anqueue-worker-1";
  WorkerScript.MAX_TASK_LOAD := Some 3;
  WorkerScript.taskEnv := taskEnv;
  WorkerScript.taskExecutors := {[ "noop" := crashing ]}
|}.

End MoreScenarios.

(* ===================================================================== *)
(** * Properties *)
(* ===================================================================== *)

(** ** Strings and the [||] defaults *)

Section Strings.
Import JS QueueTask.

Lemma append_nil (q : string) : "" +:+ q = q.
Proof. reflexivity. Qed.

Lemma append_cons (c : ascii) (p q : string) :
  String c p +:+ q = String c (p +:+ q).
Proof. reflexivity. Qed.

Lemma prefix_spec (p s : string) :
  String.prefix p s = true <-> exists post, s = p +:+ post.
Proof.
  revert s. induction p as [|c p IH]; intros s.
  - split; [intros _; exists s; reflexivity | destruct s; reflexivity].
  - destruct s as [|d s]; simpl.
    + split; [discriminate | intros [post H]; discriminate H].
    + destruct (Ascii.ascii_dec c d) as [->|Hne].
      * split.
        -- intros H. apply IH in H as [post ->]. exists post. reflexivity.
        -- intros [post H]. rewrite append_cons in H. injection H as ->.
           apply IH. eauto.
      * split; [discriminate|]. intros [post H].
        rewrite append_cons in H. congruence.
Qed.

Lemma includes_unfold (s p : string) :
  includes s p =
  if String.prefix p s then true
  else match s with
       | EmptyString => false
       | String _ s' => includes s' p
       end.
Proof. destruct s; reflexivity. Qed.

(** [includes] is the substring test. *)
Lemma includes_spec (s p : string) : includes s p = true <-> Substring p s.
Proof.
  split.
  - induction s as [|c s IH]; rewrite includes_unfold;
      destruct (String.prefix p _) eqn:Hp.
    + intros _. apply prefix_spec in Hp as [post ->]. exists "", post. reflexivity.
    + discriminate.
    + intros _. apply prefix_spec in Hp as [post ->]. exists "", post. reflexivity.
    + intros H. destruct (IH H) as (pre & post & ->).
      exists (String c pre), post. reflexivity.
  - intros (pre & post & ->). induction pre as [|c pre IH].
    + rewrite includes_unfold, append_nil.
      replace (String.prefix p (p +:+ post)) with true; [reflexivity|].
      symmetry. apply prefix_spec. exists post. reflexivity.
    + rewrite includes_unfold, append_cons.
      destruct (String.prefix p _); [reflexivity | exact IH].
Qed.

Lemma num_or_nonzero (n d : Z) : n <> 0 -> num_or (Some n) d = n.
Proof. intros H. unfold num_or. destruct (Z.eqb_spec n 0); congruence. Qed.

Lemma num_or_zero_default (n : Z) : num_or (Some n) 0 = n.
Proof. unfold num_or. destruct (Z.eqb_spec n 0); congruence. Qed.

Lemma str_or_nonempty (s d : string) : s <> "" -> str_or (Some s) d = s.
Proof.
  intros H. unfold str_or. destruct (String.eqb_spec s ""); congruence.
Qed.

End Strings.

(** ** The task: construction, validation, execution *)

Section TaskFacts.
Import JS QueueTask Scenarios.

(** *** Reconstruction from a snapshot (C9) *)

(** C9, as stated, fails: a snapshot of a task whose [maxRetries] is [0]
    comes back with the default [3]. *)
Lemma reconstruct_counterexample :
  ~ reconstructs (toPlainObject noRetryTask)
      (fromPlainObject taskEnv (toPlainObject noRetryTask)).
Proof.
  unfold reconstructs. intros (_ & _ & _ & _ & _ & _ & _ & H & _).
  vm_compute in H. discriminate H.
Qed.

(** C9, amended: a snapshot that carries a non-empty [uid], a [priority],
    a non-zero [maxRetries], a non-zero [timeout] and a [metadata] object is
    reconstructed with its own [uid], [type], [name], [description], [data],
    [metadata], [priority], [maxRetries], [timeout] and [runAt], whatever the
    environment defaults are. *)
Theorem reconstruct_preserves (env : Env) (o : TaskOptions) (u : string)
        (p m tm : Z) (md : list (string * Value)) :
  o_uid o = Some u -> u <> "" ->
  o_priority o = Some p ->
  o_maxRetries o = Some m -> m <> 0 ->
  o_timeout o = Some tm -> tm <> 0 ->
  o_metadata o = Some md ->
  reconstructs o (fromPlainObject env o).
Proof.
  intros Hu Hne Hp Hm Hm0 Ht Ht0 Hmd.
  unfold reconstructs, fromPlainObject, new_Task. simpl.
  rewrite Hu, Hp, Hm, Ht, Hmd.
  rewrite str_or_nonempty, num_or_zero_default, !num_or_nonzero by assumption.
  repeat split; reflexivity.
Qed.

Lemma reconstruct_preserves_witness :
  reconstructs mailOptions (fromPlainObject taskEnv mailOptions).
Proof.
  apply (reconstruct_preserves taskEnv mailOptions "task-1" 2 3 5000 []);
    try reflexivity; unfold not; intros H; discriminate H.
Defined.

(** The identifier [#generateId] makes is never empty. *)
Lemma generateId_nonempty (env : Env) : generateId env <> "".
Proof. unfold generateId. rewrite !append_cons. discriminate. Qed.

(** A task as the constructor builds it has a non-empty [uid]. *)
Lemma new_Task_uid_nonempty (env : Env) (o : TaskOptions) :
  uid (new_Task env o) <> "".
Proof.
  simpl. unfold str_or. destruct (o_uid o) as [s|]; [|apply generateId_nonempty].
  destruct (String.eqb_spec s ""); [apply generateId_nonempty|assumption].
Qed.

Lemma num_or_nonzero_default (o : option Z) (d : Z) : d <> 0 -> num_or o d <> 0.
Proof.
  intros Hd. unfold num_or. destruct o as [n|]; [|assumption].
  destruct (Z.eqb_spec n 0); assumption.
Qed.

(** Every snapshot of a task the constructor built is reconstructed
    faithfully. *)
Lemma reconstruct_constructed (env env' : Env) (o : TaskOptions) :
  reconstructs (toPlainObject (new_Task env o))
               (fromPlainObject env' (toPlainObject (new_Task env o))).
Proof.
  eapply reconstruct_preserves; try reflexivity.
  - apply new_Task_uid_nonempty.
  - simpl. apply num_or_nonzero_default, num_or_nonzero_default. discriminate.
  - simpl. apply num_or_nonzero_default, num_or_nonzero_default. discriminate.
Qed.

(** *** Validation (C8) *)

Lemma validate_snoc schema v t :
  validate (schema ++ [v]) t = validate_step t (validate schema t) v.
Proof. unfold validate. rewrite fold_left_app. reflexivity. Qed.

Lemma validate_passed_iff schema t :
  passed (validate schema t) = true <->
  (forall src f, In (Validator src f) schema -> truthy (f t) = true).
Proof.
  induction schema as [|v schema IH] using rev_ind.
  - simpl. split; [intros _ src f [] | reflexivity].
  - rewrite validate_snoc. destruct IH as [IH1 IH2].
    destruct v as [x|src f]; simpl.
    + split.
      * intros H src f Hin.
        apply in_app_or in Hin as [Hin|[Hin|[]]]; [eauto|discriminate].
      * intros H. apply IH2. intros src f Hin. apply (H src f), in_or_app. auto.
    + destruct (truthy (f t)) eqn:Hf; simpl.
      * split.
        -- intros H src' f' Hin.
           apply in_app_or in Hin as [Hin|[Hin|[]]]; [eauto|].
           injection Hin as <- <-. exact Hf.
        -- intros H. apply IH2. intros src' f' Hin.
           apply (H src' f'), in_or_app. auto.
      * split; [discriminate|]. intros H.
        rewrite (H src f) in Hf; [discriminate|]. apply in_or_app. simpl. auto.
Qed.

Lemma validate_failed_reason schema t :
  passed (validate schema t) = false ->
  exists pre src f post,
    schema = pre ++ Validator src f :: post /\
    truthy (f t) = false /\
    (forall src' f', In (Validator src' f') post -> truthy (f' t) = true) /\
    reason (validate schema t) = failure_reason src.
Proof.
  induction schema as [|v schema IH] using rev_ind.
  - simpl. discriminate.
  - rewrite validate_snoc. destruct v as [x|src f]; simpl.
    + intros H. destruct (IH H) as (pre & src & f & post & -> & Hf & Hpost & Hr).
      exists pre, src, f, (post ++ [NotAFunction x]).
      rewrite <- app_assoc. repeat split; auto.
      intros src' f' Hin.
      apply in_app_or in Hin as [Hin|[Hin|[]]]; [eauto|discriminate].
    + destruct (truthy (f t)) eqn:Hf; simpl.
      * intros H.
        destruct (IH H) as (pre & src0 & f0 & post & -> & Hf0 & Hpost & Hr).
        exists pre, src0, f0, (post ++ [Validator src f]).
        rewrite <- app_assoc. repeat split; auto.
        intros src' f' Hin. apply in_app_or in Hin as [Hin|[Hin|[]]]; [eauto|].
        injection Hin as <- <-. exact Hf.
      * intros _. exists schema, src, f, []. repeat split; auto.
Qed.

(** C8, as stated, fails: with two failing predicates the reason names the
    second one, not the first. *)
Lemma validate_counterexample : ~ spec_validate twoFailing mailTask.
Proof.
  intros [_ H]. specialize (H _ eq_refl). vm_compute in H. discriminate H.
Qed.

(** C8, amended: [validate] passes exactly when every callable predicate
    returns a truthy value (for a predicate that returns a boolean: [true]);
    when it does not pass, the reason carries the source text of the last
    predicate that returned a falsy value, every predicate after it having
    returned a truthy one. *)
Theorem validate_spec (schema : list TaskValidationRule) (t : Task) :
  (passed (validate schema t) = true <->
   forall src f, In (Validator src f) schema -> truthy (f t) = true) /\
  (passed (validate schema t) = false ->
   exists pre src f post,
     schema = pre ++ Validator src f :: post /\
     truthy (f t) = false /\
     (forall src' f', In (Validator src' f') post -> truthy (f' t) = true) /\
     reason (validate schema t) = failure_reason src).
Proof.
  split; [apply validate_passed_iff | apply validate_failed_reason].
Qed.

Lemma validate_spec_witness :
  exists pre src f post,
    twoFailing = pre ++ Validator src f :: post /\
    truthy (f mailTask) = false /\
    (forall src' f', In (Validator src' f') post -> truthy (f' mailTask) = true) /\
    reason (validate twoFailing mailTask) = failure_reason src.
Proof.
  apply (proj2 (validate_spec twoFailing mailTask)). reflexivity.
Defined.

End TaskFacts.

(** ** Execution and the retry engine *)

Section Execution.
Import JS QueueTask Scenarios.

Lemma shouldRetry_spec (e : Error) (rs : list string) :
  shouldRetry e rs = true <->
  exists pattern, In pattern ("Network timeout" :: rs) /\ Substring pattern (message e).
Proof.
  unfold shouldRetry, some. rewrite existsb_exists.
  split; intros (p & Hin & H); exists p; split; auto; now apply includes_spec.
Qed.

(** What a granted retry does to the task. *)
Lemma retry_effect (t t' : Task) :
  retry t = (true, t') ->
  retryCount t < maxRetries t /\
  retryCount t' = retryCount t + 1 /\ status t' = pending /\ progress t' = 0 /\
  startedAt t' = None /\ completedAt t' = None /\ error t' = None /\
  maxRetries t' = maxRetries t /\ errorHistory t' = errorHistory t.
Proof.
  unfold retry.
  destruct (Z.geb_spec (retryCount t) (maxRetries t)) as [Hge|Hlt]; [discriminate|].
  intros Heq. injection Heq as <-. simpl. repeat split; auto; lia.
Qed.

Lemma retry_refused (t : Task) :
  maxRetries t <= retryCount t -> retry t = (false, t).
Proof.
  intros H. unfold retry.
  destruct (Z.geb_spec (retryCount t) (maxRetries t)); [reflexivity|lia].
Qed.

Lemma retry_granted (t : Task) :
  retryCount t < maxRetries t -> exists t', retry t = (true, t').
Proof.
  intros H. unfold retry.
  destruct (Z.geb_spec (retryCount t) (maxRetries t)); [lia|eauto].
Qed.

(** The recursive call sees the attempts that are left. *)
Lemma execute_fuel_shift fuel run k rs t :
  execute_fuel fuel run (S k) rs t = execute_fuel fuel (fun i => run (S i)) k rs t.
Proof.
  revert k t. induction fuel as [|fuel IH]; intros k t; simpl; [reflexivity|].
  destruct (negb _); [reflexivity|].
  destruct (settled _); try reflexivity;
    destruct (shouldRetry _ _); try reflexivity;
    destruct (retry _) as [[] t2]; try reflexivity; apply IH.
Qed.

(** [execute] always answers: the fuel it starts with outlasts the retries
    the task has left. *)
Lemma execute_fuel_total fuel run k rs t :
  (Z.to_nat (maxRetries t - retryCount t) < fuel)%nat ->
  exists r, execute_fuel fuel run k rs t = Some r.
Proof.
  revert k t. induction fuel as [|fuel IH]; intros k t Hlt; [lia|]. simpl.
  destruct (negb _); [eauto|].
  set (t1 := setRunning _ _).
  assert (Hretry : forall e,
    exists r,
      (if shouldRetry e rs
       then let (again, t2) := retry t1 in
            if again then execute_fuel fuel run (S k) rs t2
            else Some (Throw e, handleError (settleTime (run k)) e t2)
       else Some (Throw e, handleError (settleTime (run k)) e t1)) = Some r).
  { intros e. destruct (shouldRetry e rs); [|eauto].
    destruct (retry t1) as [[] t2] eqn:Hr; [|eauto].
    apply retry_effect in Hr as (Hlt' & Hc & _ & _ & _ & _ & _ & Hm & _).
    apply IH. rewrite Hc, Hm. subst t1. simpl in *. lia. }
  destruct (settled _); [destruct (negb _); eauto | apply Hretry | apply Hretry].
Qed.

Lemma execute_total run rs t : exists r, execute run rs t = Some r.
Proof. apply execute_fuel_total. lia. Qed.

(** [execute] never lowers [retryCount], never touches [maxRetries], and
    keeps [retryCount <= maxRetries]. *)
Lemma execute_fuel_retryCount fuel run k rs t c t' :
  execute_fuel fuel run k rs t = Some (c, t') ->
  retryCount t <= retryCount t' /\ maxRetries t' = maxRetries t /\
  (retryCount t <= maxRetries t -> retryCount t' <= maxRetries t').
Proof.
  revert k t. induction fuel as [|fuel IH]; intros k t H; simpl in H; [discriminate|].
  destruct (negb _).
  { injection H as <- <-. repeat split; auto; lia. }
  set (t1 := setRunning _ _) in H.
  assert (Hretry : forall e,
    (if shouldRetry e rs
     then let (again, t2) := retry t1 in
          if again then execute_fuel fuel run (S k) rs t2
          else Some (Throw e, handleError (settleTime (run k)) e t2)
     else Some (Throw e, handleError (settleTime (run k)) e t1)) = Some (c, t') ->
    retryCount t <= retryCount t' /\ maxRetries t' = maxRetries t /\
    (retryCount t <= maxRetries t -> retryCount t' <= maxRetries t')).
  { intros e He. destruct (shouldRetry e rs).
    - destruct (retry t1) as [[] t2] eqn:Hr.
      + apply retry_effect in Hr as (Hlt' & Hc & _ & _ & _ & _ & _ & Hm & _).
        apply IH in He as (H1 & H2 & H3). subst t1. simpl in *.
        rewrite H2, Hm. repeat split; auto; lia.
      + unfold retry in Hr. destruct (retryCount t1 >=? maxRetries t1); [|discriminate].
        injection Hr as <-. injection He as <- <-. subst t1.
        unfold handleError, reject, setFailed, addError; simpl.
        destruct (promise t); simpl; repeat split; auto; lia.
    - injection He as <- <-. subst t1.
      unfold handleError, reject, setFailed, addError; simpl.
      destruct (promise t); simpl; repeat split; auto; lia. }
  destruct (settled _); [| apply Hretry in H; exact H | apply Hretry in H; exact H].
  destruct (negb _); injection H as <- <-; subst t1.
  - simpl. repeat split; auto; lia.
  - unfold resolve, setCompleted; simpl.
    destruct (promise t); simpl; repeat split; auto; lia.
Qed.

(** C3: on a pending task whose executor fulfils before the timeout,
    [execute] returns the executor's result; with [processed = true] the task
    ends [completed] with [completedAt] set and [progress = 100], with
    [processed = false] it ends [failed] with [failedAt] set and
    [progress = 0]; in both cases nothing is retried and [retryCount] is what
    it was. *)
Theorem execute_settles run rs t r :
  status t = pending ->
  settled (run O) = ExecutorReturned r ->
  exists t',
    execute run rs t = Some (Return r, t') /\
    retryCount t' = retryCount t /\
    (processed r = true ->
       status t' = completed /\ completedAt t' = Some (settleTime (run O)) /\
       progress t' = 100) /\
    (processed r = false ->
       status t' = failed /\ failedAt t' = Some (settleTime (run O)) /\
       progress t' = 0).
Proof.
  intros Hp Hs. unfold execute. simpl. rewrite Hp, Hs. simpl.
  destruct (processed r) eqn:Hr; simpl; eexists; split; try reflexivity.
  - unfold resolve. destruct (promise _); simpl; repeat split; auto; discriminate.
  - simpl. repeat split; auto; discriminate.
Qed.

Lemma execute_settles_witness :
  exists t',
    execute succeeds [] mailTask = Some (Return done, t') /\
    retryCount t' = retryCount mailTask /\
    (processed done = true ->
       status t' = completed /\ completedAt t' = Some (settleTime (succeeds O)) /\
       progress t' = 100) /\
    (processed done = false ->
       status t' = failed /\ failedAt t' = Some (settleTime (succeeds O)) /\
       progress t' = 0).
Proof.
  apply (execute_settles succeeds [] mailTask done); reflexivity.
Defined.

(** C4: when the first attempt of a pending task ends in an error [e] (the
    executor threw it, or it is the timeout's error), [execute] retries
    exactly when [retryCount < maxRetries] and the message of [e] contains
    ["Network timeout"] or a pattern of the retry schema. A retry raises
    [retryCount] by one, puts the task back to [pending] with [progress = 0]
    and [startedAt], [completedAt] and [error] cleared, and executes again on
    the remaining attempts; without a retry the error is thrown, the task is
    [failed] and [retryCount] is unchanged. [retryCount <= maxRetries] is
    preserved throughout. *)
Theorem retry_decision run rs t e :
  status t = pending ->
  failure (run O) t = Some e ->
  exists c t',
    execute run rs t = Some (c, t') /\
    (retryCount t < retryCount t' <-> Retryable rs t e) /\
    (Retryable rs t e ->
       exists tr,
         retry (setRunning (startTime (run O)) t) = (true, tr) /\
         retryCount tr = retryCount t + 1 /\ status tr = pending /\
         progress tr = 0 /\ startedAt tr = None /\ completedAt tr = None /\
         error tr = None /\
         execute run rs t = execute (fun i => run (S i)) rs tr) /\
    (~ Retryable rs t e ->
       c = Throw e /\ status t' = failed /\ error t' = Some e /\
       retryCount t' = retryCount t) /\
    (retryCount t <= maxRetries t -> retryCount t' <= maxRetries t').
Proof.
  intros Hp Hf.
  destruct (execute_total run rs t) as [[c t'] Hex].
  exists c, t'. split; [exact Hex|].
  pose proof (execute_fuel_retryCount _ _ _ _ _ _ _ Hex) as (Hmono & Hmax & Hinv).
  set (t1 := setRunning (startTime (run O)) t).
  assert (Hstep :
    execute run rs t =
    if shouldRetry e rs
    then let (again, t2) := retry t1 in
         if again
         then execute_fuel (Z.to_nat (maxRetries t - retryCount t)) run 1 rs t2
         else Some (Throw e, handleError (settleTime (run O)) e t2)
    else Some (Throw e, handleError (settleTime (run O)) e t1)).
  { unfold execute. simpl. rewrite Hp. simpl. unfold failure in Hf.
    destruct (settled (run O)); [discriminate | |]; injection Hf as <-; reflexivity. }
  assert (Hfail :
    let tf := handleError (settleTime (run O)) e t1 in
    status tf = failed /\ error tf = Some e /\ retryCount tf = retryCount t).
  { unfold handleError, reject. simpl. destruct (promise t); simpl; auto. }
  destruct Hfail as (F1 & F2 & F3).
  destruct (shouldRetry e rs) eqn:Hsr.
  - apply shouldRetry_spec in Hsr.
    destruct (Z_lt_ge_dec (retryCount t) (maxRetries t)) as [Hlt|Hge].
    + destruct (retry_granted t1) as [tr Hr]; [exact Hlt|].
      rewrite Hr in Hstep.
      pose proof (retry_effect _ _ Hr) as (_ & Hc & Hst & Hpr & Hsa & Hca & Her & Hm & _).
      simpl in Hc, Hm.
      assert (Hfuel : Z.to_nat (maxRetries t - retryCount t)
                      = S (Z.to_nat (maxRetries tr - retryCount tr))) by lia.
      assert (Heq : execute run rs t = execute (fun i => run (S i)) rs tr).
      { rewrite Hstep, Hfuel. unfold execute. apply execute_fuel_shift. }
      assert (Hgrow : retryCount t < retryCount t').
      { rewrite Hex in Hstep. symmetry in Hstep.
        apply execute_fuel_retryCount in Hstep. lia. }
      assert (HR : Retryable rs t e) by (split; assumption).
      refine (conj _ (conj _ (conj _ Hinv))).
      * split; auto.
      * intros _. exists tr. repeat split; auto.
      * intros Hn. contradiction.
    + rewrite retry_refused in Hstep by (simpl; lia).
      rewrite Hex in Hstep. injection Hstep as -> ->.
      assert (HnR : ~ Retryable rs t e) by (intros [Hlt _]; lia).
      refine (conj _ (conj _ (conj _ Hinv))).
      * split; [lia | intros; contradiction].
      * intros; contradiction.
      * intros _. auto.
  - rewrite Hex in Hstep. injection Hstep as -> ->.
    assert (HnR : ~ Retryable rs t e).
    { intros [_ H]. apply shouldRetry_spec in H. congruence. }
    refine (conj _ (conj _ (conj _ Hinv))).
    * split; [lia | intros; contradiction].
    * intros; contradiction.
    * intros _. auto.
Qed.

Lemma retry_decision_witness :
  exists c t',
    execute tooSlow ["timed out"] mailTask = Some (c, t') /\
    (retryCount mailTask < retryCount t'
     <-> Retryable ["timed out"] mailTask (timeoutError mailTask)) /\
    (Retryable ["timed out"] mailTask (timeoutError mailTask) ->
       exists tr,
         retry (setRunning (startTime (tooSlow O)) mailTask) = (true, tr) /\
         retryCount tr = retryCount mailTask + 1 /\ status tr = pending /\
         progress tr = 0 /\ startedAt tr = None /\ completedAt tr = None /\
         error tr = None /\
         execute tooSlow ["timed out"] mailTask
         = execute (fun i => tooSlow (S i)) ["timed out"] tr) /\
    (~ Retryable ["timed out"] mailTask (timeoutError mailTask) ->
       c = Throw (timeoutError mailTask) /\ status t' = failed /\
       error t' = Some (timeoutError mailTask) /\
       retryCount t' = retryCount mailTask) /\
    (retryCount mailTask <= maxRetries mailTask -> retryCount t' <= maxRetries t').
Proof.
  apply (retry_decision tooSlow ["timed out"] mailTask (timeoutError mailTask));
    reflexivity.
Defined.

(** The scenario of the specification: a task that always times out, with
    [maxRetries = 3] and the pattern ["timed out"], is retried three times
    and then fails with [retryCount = 3]. *)
Example timeout_retries_then_fails :
  match execute tooSlow ["timed out"] mailTask with
  | Some (Throw e, t') =>
      message e = "Task task-1 timed out after 5000ms" /\
      status t' = failed /\ retryCount t' = 3 /\ length (errorHistory t') = 1%nat
  | _ => False
  end.
Proof. vm_compute. repeat split; reflexivity. Qed.

End Execution.

(** ** The adapter's upsert with fallback *)

Section AdapterFacts.
Import JS Util Adapter Scenarios.

(** The tag both wrappers test for: an object whose own [code] property is
    the string ["P202"]. *)
Lemma isUniqueConstraintError_spec (err : Value) :
  isUniqueConstraintError err = true <->
  exists props, err = VObj props /\ get_prop "code" props = Some (VStr "P202").
Proof.
  unfold isUniqueConstraintError, hasProperty. split.
  - destruct err as [| | | | | |props]; try discriminate.
    destruct (get_prop "code" props) as [v|] eqn:Hc; [|discriminate].
    destruct v; simpl; try discriminate.
    intros H. apply String.eqb_eq in H. subst. eauto.
  - intros (props & -> & ->). reflexivity.
Qed.

(** C7, as stated, fails: an error that is no unique-constraint conflict is
    not passed on; the call fulfils with [undefined]. *)
Lemma upsert_counterexample : ~ spec_upsert brokenTable whereUid row row tt.
Proof.
  intros H. destruct (H recordNotFound tt eq_refl) as [_ H2].
  specialize (H2 eq_refl). vm_compute in H2. discriminate H2.
Qed.

(** C7, amended: when the client's upsert rejects with an error tagged as a
    unique-constraint conflict, [update(where, update)] is called, and its
    row is the result if it fulfils, [undefined] if it rejects; when the
    client's upsert rejects with any other error, the result is [undefined].
    In no case does the error reach the caller. *)
Theorem upsert_fallback {DB} (table : Delegate DB) (w u c : Value) (db db' : DB)
        (err : Value) :
  d_upsert table (mkUpsertArgs w u c) db = (Throw err, db') ->
  (isUniqueConstraintError err = true ->
     forall row db'',
       d_update table (mkUpdateArgs w u) db' = (Return row, db'') ->
       upsert table (mkUpsertArgs w u c) db = (Return row, db'')) /\
  (isUniqueConstraintError err = true ->
     forall err' db'',
       d_update table (mkUpdateArgs w u) db' = (Throw err', db'') ->
       upsert table (mkUpsertArgs w u c) db = (Return VUndefined, db'')) /\
  (isUniqueConstraintError err = false ->
     upsert table (mkUpsertArgs w u c) db = (Return VUndefined, db')).
Proof.
  intros Hu. unfold upsert, try_catch. simpl. rewrite Hu.
  repeat split.
  - intros -> r db'' ->. reflexivity.
  - intros -> err' db'' ->. reflexivity.
  - intros ->. reflexivity.
Qed.

Lemma upsert_fallback_witness :
  upsert conflictingTable (mkUpsertArgs whereUid row row) tt = (Return row, tt) /\
  upsert brokenTable (mkUpsertArgs whereUid row row) tt = (Return VUndefined, tt).
Proof.
  split.
  - exact (proj1 (upsert_fallback conflictingTable whereUid row row tt tt
                    uniqueConflict eq_refl) eq_refl row tt eq_refl).
  - exact (proj2 (proj2 (upsert_fallback brokenTable whereUid row row tt tt
                           recordNotFound eq_refl)) eq_refl).
Defined.

(** Without a rejection the client's row is the result. *)
Lemma upsert_passes_row {DB} (table : Delegate DB) (w u c : Value) (db db' : DB)
      (r : Value) :
  d_upsert table (mkUpsertArgs w u c) db = (Return r, db') ->
  upsert table (mkUpsertArgs w u c) db = (Return r, db').
Proof. intros Hu. unfold upsert, try_catch. simpl. rewrite Hu. reflexivity. Qed.

Lemma upsert_never_throws {DB} (table : Delegate DB) (data : UpsertArgs) (db : DB) :
  exists v db', upsert table data db = (Return v, db').
Proof.
  unfold upsert, try_catch.
  destruct (d_upsert table _ db) as [[r|err] db1]; [eauto|].
  destruct (isUniqueConstraintError err); [|unfold ret; eauto].
  destruct (d_update table _ db1) as [[r|err'] db2]; unfold ret; eauto.
Qed.

(** X25. [safeUpsert] never rejects: whatever the table's [upsert], its
    [update] or the [onComplete] callback throw is swallowed. *)
Lemma safeUpsert_never_throws {DB} (dbTable : Delegate DB) (w insert : Value)
      onComplete (db : DB) :
  exists db', safeUpsert dbTable w insert onComplete db = (Return tt, db').
Proof.
  unfold safeUpsert, try_catch, bind.
  destruct (d_upsert dbTable _ db) as [[r|err] db1].
  - destruct (call_onComplete onComplete r db1) as [[[]|err] db2]; [eauto|].
    destruct (isUniqueConstraintError err); [|unfold ret; eauto].
    destruct (d_update dbTable _ db2) as [[r'|err'] db3]; [|unfold ret; eauto].
    destruct (call_onComplete onComplete r' db3) as [[[]|err''] db4];
      unfold ret; eauto.
  - destruct (isUniqueConstraintError err); [|unfold ret; eauto].
    destruct (d_update dbTable _ db1) as [[r'|err'] db3]; [|unfold ret; eauto].
    destruct (call_onComplete onComplete r' db3) as [[[]|err''] db4];
      unfold ret; eauto.
Qed.

End AdapterFacts.

(** ** The worker runtime: [taskLoad] *)

Section WorkerLoad.
Import JS QueueTask TaskExecutor WorkerScript Scenarios.

Lemma keepsLoad_ret {A} (a : A) : keepsLoad (ret a).
Proof. intros s. reflexivity. Qed.

Lemma keepsLoad_lift {A} (c : Completion Error A) : keepsLoad (lift c).
Proof. intros s. reflexivity. Qed.

Lemma keepsLoad_sendTaskInfo task error result :
  keepsLoad (sendTaskInfo task error result).
Proof. intros s. reflexivity. Qed.

Lemma keepsLoad_bind {A B} (c : App A) (k : A -> App B) :
  keepsLoad c -> (forall a, keepsLoad (k a)) -> keepsLoad (bind c k).
Proof.
  intros Hm Hk s. unfold bind. specialize (Hm s).
  destruct (c s) as [[a|e] s']; simpl in *; [rewrite Hk|]; exact Hm.
Qed.

(** The task body sends messages and never touches the counter. *)
Lemma keepsLoad_taskBody cfg data : keepsLoad (taskBody cfg data).
Proof.
  unfold taskBody.
  destruct (taskExecutors cfg !! _) as [executor|]; [|apply keepsLoad_sendTaskInfo].
  destruct (execute _ _ _) as [[outcome task1]|]; [|apply keepsLoad_ret].
  destruct outcome as [result|e].
  - destruct (onComplete _ _ _); [apply keepsLoad_sendTaskInfo|].
    apply keepsLoad_bind; [apply keepsLoad_lift|]. intros _.
    apply keepsLoad_bind; [apply keepsLoad_sendTaskInfo|]. intros _.
    apply keepsLoad_sendTaskInfo.
  - apply keepsLoad_bind; [apply keepsLoad_lift|]. intros _.
    apply keepsLoad_bind; [apply keepsLoad_sendTaskInfo|]. intros _.
    apply keepsLoad_sendTaskInfo.
Qed.

(** The gate: at full load [withWorkerCapacity] throws and the counter is
    untouched. *)
Lemma withWorkerCapacity_refuses {A} cfg (fn : App A) s :
  atFullLoad cfg s = true ->
  withWorkerCapacity cfg fn s =
  (Throw {| message := m cfg "Currently under full load" |}, s).
Proof.
  intros H. unfold withWorkerCapacity, enterCapacity, bind, get. rewrite H.
  reflexivity.
Qed.

(** Below full load [fn] runs with the counter one higher, and the [finally]
    takes that one off again whether [fn] returns or throws. *)
Lemma withWorkerCapacity_runs {A} cfg (fn : App A) s :
  atFullLoad cfg s = false ->
  let s1 := {| taskLoad := taskLoad s + 1; outbox := outbox s |} in
  withWorkerCapacity cfg fn s =
  (fst (fn s1),
   {| taskLoad := taskLoad (snd (fn s1)) - 1; outbox := outbox (snd (fn s1)) |}).
Proof.
  intros H. unfold withWorkerCapacity, enterCapacity, bind, get. rewrite H.
  unfold incrementLoad, modify, try_finally, decrementLoad. simpl.
  destruct (fn _) as [c s']. reflexivity.
Qed.

(** So [withWorkerCapacity] alone is balanced. *)
Lemma withWorkerCapacity_balanced {A} cfg (fn : App A) :
  keepsLoad fn -> keepsLoad (withWorkerCapacity cfg fn).
Proof.
  intros Hfn s. destruct (atFullLoad cfg s) eqn:Hfull.
  - rewrite withWorkerCapacity_refuses by assumption. reflexivity.
  - rewrite withWorkerCapacity_runs by assumption. simpl. rewrite Hfn. simpl. lia.
Qed.

(** The [finally] of [processTasks] takes one more off. *)
Lemma guarded_taskLoad (body : App unit) s :
  taskLoad (snd (guarded body s)) = taskLoad (snd (body s)) - 1.
Proof.
  unfold guarded, try_finally, try_catch, decrementLoad, modify.
  destruct (body s) as [[a|e] s']; reflexivity.
Qed.

(** Whatever the task does, and also when the gate refuses it, handling one
    task leaves [taskLoad] one lower than it was. *)
Lemma processTask_taskLoad cfg data s :
  taskLoad (snd (processTask cfg data s)) = taskLoad s - 1.
Proof.
  unfold processTask. rewrite guarded_taskLoad.
  rewrite (withWorkerCapacity_balanced cfg _ (keepsLoad_taskBody cfg data)).
  reflexivity.
Qed.

(** For one task the two phases are the callback run in one go. *)
Lemma processTasks_one cfg data s :
  processTasks cfg [data] s = snd (processTask cfg data s).
Proof.
  unfold processTasks, processTask, startAll, startTask, finishTask, withWorkerCapacity.
  unfold guarded, bind, try_finally, try_catch, throw.
  destruct (enterCapacity cfg s) as [[[]|e] s1]; simpl; reflexivity.
Qed.

Lemma startAll_taskLoad cfg taskData s :
  length (fst (startAll cfg taskData s)) = length taskData /\
  taskLoad (snd (startAll cfg taskData s))
  = taskLoad s + gatePassed (fst (startAll cfg taskData s)).
Proof.
  revert s. induction taskData as [|data rest IH]; intros s; simpl.
  - unfold gatePassed. simpl. split; [reflexivity|lia].
  - unfold startTask, enterCapacity, bind, get.
    destruct (atFullLoad cfg s); simpl.
    + specialize (IH s). destruct (startAll cfg rest s) as [sts s2]. simpl in *.
      unfold gatePassed in *. simpl. destruct IH as [-> ->]. split; [reflexivity|lia].
    + specialize (IH {| taskLoad := taskLoad s + 1; outbox := outbox s |}).
      destruct (startAll cfg rest _) as [sts s2]. simpl in *.
      unfold gatePassed in *. simpl. destruct IH as [-> ->]. split; [reflexivity|].
      simpl. lia.
Qed.

Lemma finishTask_taskLoad cfg data c s :
  taskLoad (finishTask cfg (data, c) s)
  = taskLoad s - match c with Return _ => 2 | Throw _ => 1 end.
Proof.
  unfold finishTask. rewrite guarded_taskLoad.
  destruct c; [|reflexivity].
  unfold try_finally, decrementLoad, modify.
  pose proof (keepsLoad_taskBody cfg data s) as H.
  destruct (taskBody cfg data s) as [c' s']. simpl in *. lia.
Qed.

Lemma finishAll_taskLoad cfg started s :
  taskLoad (fold_left (fun acc st => finishTask cfg st acc) started s)
  = taskLoad s - gatePassed started - Z.of_nat (length started).
Proof.
  revert s. induction started as [|[data c] rest IH]; intros s.
  - unfold gatePassed. simpl. lia.
  - cbn [fold_left]. rewrite IH, finishTask_taskLoad.
    unfold gatePassed. cbn [List.filter snd length]. destruct c; cbn [length]; lia.
Qed.

(** X24. A call of [processTasks] lowers [taskLoad] by the number of tasks it
    was given, let in or refused. *)
Lemma processTasks_taskLoad cfg taskData s :
  taskLoad (processTasks cfg taskData s) = taskLoad s - Z.of_nat (length taskData).
Proof.
  unfold processTasks.
  pose proof (startAll_taskLoad cfg taskData s) as [Hlen Hload].
  destruct (startAll cfg taskData s) as [started s1]. simpl in *.
  rewrite finishAll_taskLoad, Hload, Hlen. lia.
Qed.

(** C2 (the code departs from it): a worker with [MAX_TASK_LOAD = 3] and
    [taskLoad = 0] that handles one task of a registered type ends with
    [taskLoad = -1]: the task passed the gate, [withWorkerCapacity] restored the
    counter, and the [finally] of [processTasks] decremented it once more. *)
Theorem processTasks_taskLoad_negative :
  WorkerScript.taskLoad idle = 0 /\
  atFullLoad workerConfig idle = false /\
  WorkerScript.taskLoad (processTasks workerConfig [noopOptions] idle) = -1.
Proof. repeat split; vm_compute; reflexivity. Qed.

End WorkerLoad.

(** ** The worker manager: [getAvailable] *)

Section ManagerFacts.
Import JS QueueTask Manager Scenarios.

Lemma spawn_ok (workerId : option string) (mgr : WorkerManager) :
  size mgr < maxWorkers mgr -> workerFileExists mgr = true ->
  let wid := match workerId with Some i => i | None => generateId mgr end in
  spawn workerId mgr = (Return (wid, new_Worker), set wid new_Worker mgr).
Proof.
  intros Hlt Hfile. unfold spawn.
  destruct (Z.geb_spec (size mgr) (maxWorkers mgr)); [lia|].
  rewrite Hfile. reflexivity.
Qed.

(** [spawn] refuses when the pool is full. *)
Lemma spawn_refuses (workerId : option string) (mgr : WorkerManager) :
  maxWorkers mgr <= size mgr ->
  exists e, spawn workerId mgr = (Throw e, mgr).
Proof.
  intros Hge. unfold spawn.
  destruct (Z.geb_spec (size mgr) (maxWorkers mgr)); [eauto|lia].
Qed.

Lemma fold_lessBusy (rest : list (string * Worker)) (x : string * Worker) :
  let w := fold_left lessBusy rest x in
  In w (x :: rest) /\ forall w', In w' (x :: rest) -> loadOf w <= loadOf w'.
Proof.
  revert x. induction rest as [|y rest IH]; intros x; simpl.
  - split; [auto|]. intros w' [<-|[]]. lia.
  - destruct (IH (lessBusy x y)) as [Hin Hmin]. simpl in Hin.
    assert (Hxy : loadOf (lessBusy x y) <= loadOf x /\
                  loadOf (lessBusy x y) <= loadOf y /\
                  (lessBusy x y = x \/ lessBusy x y = y)).
    { unfold lessBusy.
      destruct (Z.leb_spec (loadOf x) (loadOf y)); repeat split; auto; lia. }
    destruct Hxy as (Hx & Hy & Hor). split.
    + destruct Hin as [Hin|Hin]; [|auto].
      rewrite <- Hin. destruct Hor as [->| ->]; auto.
    + intros w' [<-|[<-|Hw']].
      * specialize (Hmin _ (or_introl eq_refl)). lia.
      * specialize (Hmin _ (or_introl eq_refl)). lia.
      * apply Hmin. simpl. auto.
Qed.

Lemma size_nonempty (mgr : WorkerManager) :
  workers mgr <> [] -> (size mgr =? 0) = false.
Proof.
  intros Hne. unfold size. destruct (workers mgr); [congruence|]. simpl. lia.
Qed.

Lemma none_available (mgr : WorkerManager) :
  (forall w, In w (workers mgr) -> isAvailable w = false) ->
  List.filter isAvailable (workers mgr) = [].
Proof.
  intros Hsat.
  destruct (List.filter isAvailable (workers mgr)) as [|x rest] eqn:Hfl; [reflexivity|].
  assert (In x (List.filter isAvailable (workers mgr))) as Hx
    by (rewrite Hfl; simpl; auto).
  apply filter_In in Hx as [Hx1 Hx2]. rewrite (Hsat _ Hx1) in Hx2. discriminate.
Qed.

(** No worker yet: a fresh handle is spawned under the generated id. *)
Lemma getAvailable_first_worker (mgr : WorkerManager) :
  workers mgr = [] -> 0 < maxWorkers mgr -> workerFileExists mgr = true ->
  getAvailable mgr
  = (Return (Some (generateId mgr, new_Worker)), set (generateId mgr) new_Worker mgr).
Proof.
  intros Hw Hmax Hfile. unfold getAvailable.
  assert (Hsize : size mgr = 0) by (unfold size; rewrite Hw; reflexivity).
  rewrite Hsize. simpl.
  rewrite (spawn_ok None) by (rewrite ?Hsize; assumption). reflexivity.
Qed.

(** X26. Some worker has room: a worker with the least cached load among
    those with room is returned, and nothing is spawned. *)
Lemma getAvailable_least_loaded (mgr : WorkerManager) (w0 : string * Worker) :
  In w0 (workers mgr) -> isAvailable w0 = true ->
  exists w,
    getAvailable mgr = (Return (Some w), mgr) /\
    In w (workers mgr) /\ isAvailable w = true /\
    forall w', In w' (workers mgr) -> isAvailable w' = true -> loadOf w <= loadOf w'.
Proof.
  intros Hin Hav. unfold getAvailable.
  rewrite size_nonempty by (intros E; rewrite E in Hin; destruct Hin).
  assert (Hf : In w0 (List.filter isAvailable (workers mgr))) by (apply filter_In; auto).
  destruct (List.filter isAvailable (workers mgr)) as [|x rest] eqn:Hfl; [destruct Hf|].
  replace (Z.of_nat (length (x :: rest)) =? 0) with false by (simpl; lia).
  simpl. destruct (fold_lessBusy rest x) as [Hw Hmin].
  exists (fold_left lessBusy rest x). split; [reflexivity|].
  rewrite <- Hfl in Hw. apply filter_In in Hw as [Hw1 Hw2]. repeat split; auto.
  intros w' Hw' Hav'. apply Hmin. rewrite <- Hfl. apply filter_In. auto.
Qed.

(** Every worker is saturated (or was never polled) and there is room for
    one more: a fresh handle is spawned. *)
Lemma getAvailable_spawns_when_saturated (mgr : WorkerManager) :
  workers mgr <> [] ->
  (forall w, In w (workers mgr) -> isAvailable w = false) ->
  size mgr < maxWorkers mgr -> workerFileExists mgr = true ->
  getAvailable mgr
  = (Return (Some (generateId mgr, new_Worker)), set (generateId mgr) new_Worker mgr).
Proof.
  intros Hne Hsat Hlt Hfile. unfold getAvailable.
  rewrite size_nonempty, none_available by assumption. simpl.
  replace (maxWorkers mgr >? size mgr) with true by (symmetry; apply Z.gtb_lt; lia).
  rewrite (spawn_ok None) by assumption. reflexivity.
Qed.

(** Every worker is saturated and the pool is full: the [reduce] over the
    empty array of available workers throws. *)
Lemma getAvailable_throws_when_full (mgr : WorkerManager) :
  workers mgr <> [] ->
  (forall w, In w (workers mgr) -> isAvailable w = false) ->
  maxWorkers mgr <= size mgr ->
  getAvailable mgr = (Throw emptyArrayReduce, mgr).
Proof.
  intros Hne Hsat Hge. unfold getAvailable.
  rewrite size_nonempty, none_available by assumption. simpl.
  replace (maxWorkers mgr >? size mgr) with false; [reflexivity|].
  symmetry. destruct (maxWorkers mgr >? size mgr) eqn:E; [|reflexivity].
  apply Z.gtb_lt in E. lia.
Qed.

(** The declared [undefined] result does not occur. *)
Lemma getAvailable_never_undefined (mgr mgr' : WorkerManager) :
  getAvailable mgr <> (Return None, mgr').
Proof.
  unfold getAvailable.
  destruct (size mgr =? 0).
  - destruct (spawn None mgr) as [[w|e] m']; discriminate.
  - destruct (_ && _).
    + destruct (spawn None mgr) as [[w|e] m']; discriminate.
    + destruct (reduce _ _); discriminate.
Qed.

(** C6 (the code departs from it): with one worker polled at its full load
    and [maxWorkers = 1], [getAvailable] does not return "no worker"; it
    throws the [TypeError] of [reduce] on an empty array, and the pool is
    unchanged. *)
Theorem getAvailable_saturated_throws :
  size saturatedManager = maxWorkers saturatedManager /\
  List.filter isAvailable (workers saturatedManager) = [] /\
  getAvailable saturatedManager = (Throw emptyArrayReduce, saturatedManager).
Proof. repeat split; vm_compute; reflexivity. Qed.

(** The same happens right after [init()], before the first poll has filled
    [cachedInfo]. *)
Example getAvailable_unpolled_throws :
  getAvailable unpolledManager = (Throw emptyArrayReduce, unpolledManager).
Proof. vm_compute. reflexivity. Qed.

End ManagerFacts.

(** ** The queue's stack: [remove] *)

Section FindIndex.
Context {A : Type} (p : A -> bool).

Lemma findIndex_Some (l : list A) (i : nat) :
  Queue.findIndex p l = Some i ->
  exists l1 x l2,
    l = l1 ++ x :: l2 /\ length l1 = i /\ p x = true /\
    (forall y, In y l1 -> p y = false).
Proof.
  revert i. induction l as [|a l IH]; intros i H; simpl in H.
  - discriminate.
  - destruct (p a) eqn:Hpa.
    + injection H as <-. exists [], a, l. repeat split; auto.
      intros y [].
    + destruct (Queue.findIndex p l) as [j|] eqn:Hj; [|discriminate].
      injection H as <-.
      destruct (IH j eq_refl) as (l1 & x & l2 & -> & Hlen & Hx & Hpre).
      exists (a :: l1), x, l2. repeat split; simpl; auto.
      intros y [<-|Hy]; auto.
Qed.

Lemma findIndex_None (l : list A) :
  Queue.findIndex p l = None <-> (forall x, In x l -> p x = false).
Proof.
  induction l as [|a l IH]; simpl.
  - split; [intros _ x [] | reflexivity].
  - destruct (p a) eqn:Hpa.
    + split; [discriminate|]. intros H.
      rewrite (H a) in Hpa; [discriminate|auto].
    + destruct (Queue.findIndex p l) as [j|].
      * split; [discriminate|]. intros H.
        assert (Some j = None) as Hn; [|discriminate].
        apply IH. intros x Hx. apply H. auto.
      * split; [|reflexivity]. intros _ x [<-|Hx]; auto.
        apply (proj1 IH eq_refl x Hx).
Qed.

Lemma splice1_middle (l1 l2 : list A) (x : A) :
  Queue.splice1 (length l1) (l1 ++ x :: l2) = l1 ++ l2.
Proof.
  unfold Queue.splice1.
  rewrite firstn_app, Nat.sub_diag, firstn_all. simpl. rewrite app_nil_r.
  change (x :: l2) with ([x] ++ l2). rewrite app_assoc.
  rewrite skipn_app.
  replace (S (length l1)) with (length (l1 ++ [x]))
    by (rewrite length_app; simpl; lia).
  rewrite skipn_all, Nat.sub_diag. reflexivity.
Qed.

End FindIndex.

Section QueueFacts.
Import JS QueueTask Queue Scenarios.

(** C10: if some task of the stack has the uid, [remove] returns [true] and
    takes out the first such task and nothing else, the others keeping their
    order (and no task object is touched); if none has it, [remove] returns
    [false] and the queue is unchanged. *)
Theorem remove_first_match (taskId : string) (silent : bool) (q : Queue.Queue) :
  ((exists r, In r (taskStack q) /\ uid (objects q r) = taskId) ->
   exists l1 r l2,
     taskStack q = l1 ++ r :: l2 /\
     uid (objects q r) = taskId /\
     (forall r', In r' l1 -> uid (objects q r') <> taskId) /\
     fst (remove taskId silent q) = true /\
     taskStack (snd (remove taskId silent q)) = l1 ++ l2 /\
     objects (snd (remove taskId silent q)) = objects q) /\
  ((forall r, In r (taskStack q) -> uid (objects q r) <> taskId) ->
   remove taskId silent q = (false, q)).
Proof.
  unfold remove. split.
  - intros (r0 & Hin & Huid).
    destruct (findIndex (hasUid q taskId) (taskStack q)) as [i|] eqn:Hi.
    + destruct (findIndex_Some _ _ _ Hi) as (l1 & r & l2 & Hst & Hlen & Hr & Hpre).
      exists l1, r, l2. unfold hasUid in *.
      apply String.eqb_eq in Hr.
      repeat split; auto.
      * intros r' Hr' Heq. apply Hpre in Hr'. apply String.eqb_neq in Hr'. auto.
      * rewrite Hst, <- Hlen, splice1_middle. destruct silent; reflexivity.
      * destruct silent; reflexivity.
    + exfalso. rewrite findIndex_None in Hi. specialize (Hi r0 Hin).
      unfold hasUid in Hi. apply String.eqb_neq in Hi. auto.
  - intros H.
    replace (findIndex (hasUid q taskId) (taskStack q)) with (@None nat); auto.
    symmetry. apply findIndex_None. intros r Hr. apply String.eqb_neq. auto.
Qed.

Lemma remove_first_match_witness :
  (exists l1 r l2,
     taskStack namedQueue = l1 ++ r :: l2 /\
     uid (objects namedQueue r) = "a" /\
     (forall r', In r' l1 -> uid (objects namedQueue r') <> "a") /\
     fst (remove "a" false namedQueue) = true /\
     taskStack (snd (remove "a" false namedQueue)) = l1 ++ l2 /\
     objects (snd (remove "a" false namedQueue)) = objects namedQueue) /\
  remove "z" false namedQueue = (false, namedQueue).
Proof.
  split.
  - apply (proj1 (remove_first_match "a" false namedQueue)).
    exists O. split; [simpl; auto | reflexivity].
  - apply (proj2 (remove_first_match "z" false namedQueue)).
    intros r [<-|[<-|[<-|[]]]]; vm_compute; intros H; discriminate H.
Defined.

(** On the stack [a, b, a] the call [remove("a")] leaves [b, a]. *)
Example remove_takes_first :
  taskStack (snd (remove "a" false namedQueue)) = [1; 2]%nat.
Proof. reflexivity. Qed.

End QueueFacts.

(** ** The dispatch strategies: what the counters count *)

Section Dispatch.
Import JS QueueTask TaskExecutor Queue Strategies Scenarios.

Lemma store_remove taskId silent q : store (snd (remove taskId silent q)) = store q.
Proof.
  unfold remove. destruct (findIndex _ _); [|reflexivity].
  destruct silent; reflexivity.
Qed.

Lemma saves_remove taskId silent q : saves (snd (remove taskId silent q)) = saves q.
Proof. unfold saves. now rewrite store_remove. Qed.

Lemma saves_sendTo wid msg q : saves (snd (sendTo wid msg q)) = saves q.
Proof.
  unfold sendTo, act, modify. simpl. destruct (Manager.get _ _); reflexivity.
Qed.

Lemma sendTo_returns wid msg q : fst (sendTo wid msg q) = Return tt.
Proof. reflexivity. Qed.

Lemma saves_onWorkers {A} (c : M Manager.WorkerManager Error A) q :
  saves (snd (onWorkers c q)) = saves q.
Proof. unfold onWorkers. destruct (c _). reflexivity. Qed.

(** The checks count a task in [noExecutorFound] or [validationFailed], or
    hand it to [saveTask] with its retries exhausted, or let it pass; they
    never touch the other two counters. *)
Lemma check_accounting stats task q stats' o q' :
  check stats task q = (Return (stats', o), q') ->
  tasksSent stats' = tasksSent stats /\
  noWorkerAvailable stats' = noWorkerAvailable stats /\
  noExecutorFound stats' + validationFailed stats' + saves q'
  = noExecutorFound stats + validationFailed stats + saves q + counted o /\
  saves q <= saves q'.
Proof.
  unfold check, bind, get, act, modify, ret.
  destruct (taskExecutors q !! _) as [executor|].
  - destruct (negb _).
    + destruct (_ >=? _).
      * intros H. injection H as <- <- <-. cbn [snd fst].
        unfold saveTask, saves. cbn [store saveTaskCalls with_store].
        rewrite length_app, store_remove. simpl. lia.
      * destruct (onFailure _ _ _ _); [|discriminate].
        intros H. injection H as <- <- <-. simpl. unfold saves. simpl. lia.
    + intros H. injection H as <- <- <-. simpl. lia.
  - intros H. injection H as <- <- <-. cbn [snd fst]. rewrite saves_remove.
    unfold saves. simpl. lia.
Qed.

(** The checks are the only place where a dispatch cycle changes
    [retryCount], and they keep it within [maxRetries] for every task. *)
Lemma check_retry_bound stats task q c q' :
  check stats task q = (c, q') ->
  forall r,
    retryCount (objects q r) <= maxRetries (objects q r) ->
    retryCount (objects q' r) <= maxRetries (objects q' r).
Proof.
  unfold check, bind, get, act, modify, ret.
  assert (Hrm : forall taskId silent q0,
             objects (snd (remove taskId silent q0)) = objects q0).
  { intros taskId silent q0. unfold remove. destruct (findIndex _ _); [|reflexivity].
    destruct silent; reflexivity. }
  assert (Hmut : forall (f : Task -> Task) q0 r,
             (forall t, retryCount t <= maxRetries t ->
                        retryCount (f t) <= maxRetries (f t)) ->
             retryCount (objects q0 r) <= maxRetries (objects q0 r) ->
             retryCount (objects (mutate task f q0) r)
             <= maxRetries (objects (mutate task f q0) r)).
  { intros f q0 r Hf Hr. simpl.
    destruct (Nat.eqb_spec r task) as [->|Hne]; auto. }
  destruct (taskExecutors q !! _) as [executor|].
  - destruct (negb _).
    + destruct (Z.geb_spec (retryCount (objects q task)) (maxRetries (objects q task)))
        as [Hge|Hlt].
      * intros H. injection H as <- <-. intros r Hr. cbn [snd fst].
        unfold saveTask. cbn [objects with_store]. rewrite Hrm.
        apply Hmut; [intros t Ht; exact Ht | exact Hr].
      * assert (Hq : forall r,
                  retryCount (objects q r) <= maxRetries (objects q r) ->
                  let q1 := mutate task
                              (fun t => set_retryCount (retryCount t + 1)
                                          (set_status failed t)) q in
                  retryCount (objects q1 r) <= maxRetries (objects q1 r)).
        { intros r Hr. simpl.
          destruct (Nat.eqb_spec r task) as [->|Hne]; simpl; [lia|exact Hr]. }
        destruct (onFailure _ _ _ _); intros H; injection H as <- <-;
          intros r Hr; cbn [snd fst log objects with_console];
          (apply Hmut; [intros t Ht; exact Ht | apply Hq; exact Hr]).
    + intros H. injection H as <- <-. auto.
  - intros H. injection H as <- <-. intros r Hr. cbn [snd fst]. rewrite Hrm.
    exact Hr.
Qed.

Lemma single_step_accounting stats task q stats' q' :
  single_step stats task q = (Return stats', q') ->
  saves q <= saves q' /\
  total stats' + saves q' = total stats + saves q + 1.
Proof.
  unfold single_step, bind.
  pose proof (saves_onWorkers Manager.getAvailable q) as Hw.
  destruct (onWorkers Manager.getAvailable q) as [[[[wid w]|]|e] q1]; simpl in Hw.
  - destruct (check stats task q1) as [[[stats1 o]|e] q2] eqn:Hc; [|discriminate].
    apply check_accounting in Hc as (H1 & H2 & H3 & H4).
    destruct o; unfold get, act, modify, ret; cbn [fst snd].
    + pose proof (saves_sendTo wid (Manager.taskSingle (objects q2 task)) q2) as Hsend.
      destruct (sendTo _ _ q2) as [[[]|e] q3]; [|discriminate].
      intros H. injection H as <- <-.
      rewrite saves_remove. unfold total, sent. simpl in *. lia.
    + intros H. injection H as <- <-. unfold total. simpl in *. lia.
    + intros H. injection H as <- <-. unfold total. simpl in *. lia.
    + intros H. injection H as <- <-. unfold total. simpl in *. lia.
  - unfold ret. intros H. injection H as <- <-. unfold total, noWorker. simpl. lia.
  - discriminate.
Qed.

Lemma single_loop_accounting tasks stats q stats' q' :
  single_loop stats tasks q = (Return stats', q') ->
  saves q <= saves q' /\
  total stats' + saves q' = total stats + saves q + Z.of_nat (length tasks).
Proof.
  revert stats q. induction tasks as [|task rest IH]; intros stats q; simpl.
  - unfold ret. intros H. injection H as <- <-. lia.
  - unfold bind.
    destruct (single_step stats task q) as [[stats1|e] q1] eqn:Hs; [|discriminate].
    intros H. apply IH in H. apply single_step_accounting in Hs. lia.
Qed.

Lemma batch_checks_accounting chunk stats q stats' q' :
  batch_checks stats chunk q = (Return stats', q') ->
  tasksSent stats' = tasksSent stats /\
  noWorkerAvailable stats' = noWorkerAvailable stats /\
  saves q <= saves q' /\
  rejected stats + saves q <= rejected stats' + saves q'
    <= rejected stats + saves q + Z.of_nat (length chunk).
Proof.
  revert stats q. induction chunk as [|task rest IH]; intros stats q; simpl.
  - unfold ret. intros H. injection H as <- <-. lia.
  - unfold bind.
    destruct (check stats task q) as [[[stats1 o]|e] q1] eqn:Hc; [|discriminate].
    intros H. apply IH in H as (H1 & H2 & H3 & H4).
    apply check_accounting in Hc as (C1 & C2 & C3 & C4).
    unfold rejected in *. destruct o; simpl in C3; lia.
Qed.

Lemma saves_removeAll chunk q :
  fst (removeAll chunk q) = Return tt /\ saves (snd (removeAll chunk q)) = saves q.
Proof.
  revert q. induction chunk as [|task rest IH]; intros q; simpl.
  - split; reflexivity.
  - unfold bind, act, modify. simpl.
    destruct (IH (snd (remove (uid (objects q task)) true q))) as [H1 H2].
    rewrite H2, saves_remove. split; [exact H1|reflexivity].
Qed.

Lemma batch_step_accounting stats tasks worker q stats' tasks' q' :
  batch_step (stats, tasks) worker q = (Return (stats', tasks'), q') ->
  (length tasks' <= length tasks)%nat /\
  saves q <= saves q' /\
  rejected stats' + saves q' + Z.of_nat (length tasks')
    <= rejected stats + saves q + Z.of_nat (length tasks).
Proof.
  unfold batch_step.
  destruct (_ || _).
  { unfold ret. intros H. injection H as <- <- <-.
    unfold rejected, noWorker. simpl. lia. }
  set (n := Z.to_nat _).
  assert (Hlen : (length (firstn n tasks) + length (skipn n tasks)
                  = length tasks)%nat).
  { rewrite <- length_app, firstn_skipn. reflexivity. }
  destruct (Z.of_nat (length (firstn n tasks)) =? 0).
  { unfold ret. intros H. injection H as <- <- <-. lia. }
  unfold bind.
  destruct (batch_checks stats (firstn n tasks) q) as [[stats1|e] q1] eqn:Hc;
    [|discriminate].
  apply batch_checks_accounting in Hc as (C1 & C2 & C3 & C4).
  unfold get. cbn [fst snd].
  pose proof (saves_sendTo (fst worker)
                (Manager.taskBatch (map (objects q1) (firstn n tasks))) q1) as Hsend.
  destruct (sendTo _ _ q1) as [[[]|e] q2] eqn:Hs.
  2:{ pose proof (sendTo_returns (fst worker)
                (Manager.taskBatch (map (objects q1) (firstn n tasks))) q1) as Hr.
      rewrite Hs in Hr. discriminate Hr. }
  simpl in Hsend.
  destruct (saves_removeAll (firstn n tasks) q2) as [R1 R2].
  destruct (removeAll (firstn n tasks) q2) as [[[]|e] q3]; simpl in R1, R2.
  2:{ discriminate R1. }
  unfold ret. cbv beta. intros H. injection H as <- <- <-.
  unfold rejected, sent in *. simpl. lia.
Qed.

Lemma batch_loop_accounting ws stats tasks q stats' tasks' q' :
  batch_loop (stats, tasks) ws q = (Return (stats', tasks'), q') ->
  (length tasks' <= length tasks)%nat /\
  saves q <= saves q' /\
  rejected stats' + saves q' + Z.of_nat (length tasks')
    <= rejected stats + saves q + Z.of_nat (length tasks).
Proof.
  revert stats tasks q. induction ws as [|w ws IH]; intros stats tasks q;
    cbn [batch_loop].
  - unfold ret. intros H. injection H as <- <- <-. lia.
  - unfold bind.
    destruct (batch_step (stats, tasks) w q) as [[[stats1 tasks1]|e] q1] eqn:Hs;
      [|intros H; discriminate H].
    intros H. apply IH in H. apply batch_step_accounting in Hs. lia.
Qed.

(** C1, as stated, fails: a task that fails its validation with its retries
    used up is dropped and handed to [saveTask] without being counted, so
    one input task gives four zero counters. *)
Lemma dispatch_accounting_counterexample :
  exists stats,
    fst (single [O] exhaustedQueue) = Return stats /\
    total stats <> Z.of_nat (length [O]).
Proof.
  exists noStats. split; [vm_compute; reflexivity|].
  vm_compute. intros H. discriminate H.
Qed.

(** C1, amended. For [single], whenever it returns its counters:
    [tasksSent + noWorkerAvailable + noExecutorFound + validationFailed],
    plus the number of tasks it dropped with their retries exhausted (one
    [saveTask] call each), is the number of input tasks. For [batch],
    whenever it returns: every task taken from the head of the list is
    counted at most once among [noExecutorFound], [validationFailed] and the
    dropped ones. *)
Theorem dispatch_accounting (tasks : list TaskRef) (q : Queue.Queue) :
  (forall stats q',
     single tasks q = (Return stats, q') ->
     0 <= saves q' - saves q /\
     total stats + (saves q' - saves q) = Z.of_nat (length tasks)) /\
  (forall stats rest q',
     batch tasks q = (Return (stats, rest), q') ->
     0 <= saves q' - saves q /\
     noExecutorFound stats + validationFailed stats + (saves q' - saves q)
     <= Z.of_nat (length tasks) - Z.of_nat (length rest)).
Proof.
  split.
  - intros stats q' H. apply single_loop_accounting in H.
    change (total noStats) with 0 in H. lia.
  - intros stats rest q' H. unfold batch, bind, get in H.
    apply batch_loop_accounting in H.
    change (rejected noStats) with 0 in H. unfold rejected in H. lia.
Qed.

Lemma dispatch_accounting_witness :
  (exists stats q',
     single [O] strictQueue = (Return stats, q') /\
     0 <= saves q' - saves strictQueue /\
     total stats + (saves q' - saves strictQueue) = Z.of_nat (length [O])) /\
  (exists stats rest q',
     batch [0; 1; 2; 3]%nat mixedQueue = (Return (stats, rest), q') /\
     0 <= saves q' - saves mixedQueue /\
     noExecutorFound stats + validationFailed stats + (saves q' - saves mixedQueue)
     <= Z.of_nat (length [0; 1; 2; 3]%nat) - Z.of_nat (length rest)).
Proof.
  split.
  - assert (E : single [O] strictQueue
                = (Return (mkStats 0 0 0 1), snd (single [O] strictQueue)))
      by (vm_compute; reflexivity).
    exists (mkStats 0 0 0 1), (snd (single [O] strictQueue)).
    split; [exact E|].
    exact (proj1 (dispatch_accounting [O] strictQueue) _ _ E).
  - assert (E : batch [0; 1; 2; 3]%nat mixedQueue
                = (Return (mkStats 4 0 1 0, []),
                   snd (batch [0; 1; 2; 3]%nat mixedQueue)))
      by (vm_compute; reflexivity).
    exists (mkStats 4 0 1 0), [], (snd (batch [0; 1; 2; 3]%nat mixedQueue)).
    split; [exact E|].
    exact (proj2 (dispatch_accounting [0; 1; 2; 3]%nat mixedQueue) _ _ _ E).
Defined.

(** The validation scenario of the specification, cycle by cycle: the first
    cycle counts the task in [validationFailed] and keeps it, the second
    drops it uncounted and records it through [saveTask]. *)
Example validation_retry_exhaustion :
  fst (single [O] strictQueue) = Return (mkStats 0 0 0 1) /\
  taskStack exhaustedQueue = [O] /\
  fst (single [O] exhaustedQueue) = Return noStats /\
  taskStack (snd (single [O] exhaustedQueue)) = [] /\
  saves (snd (single [O] exhaustedQueue)) = 1.
Proof. repeat split; vm_compute; reflexivity. Qed.

(** C5 (the code departs from it): four tasks go to one idle worker, the
    second of a type without executor. The checks count that task in
    [noExecutorFound], and the [taskBatch] message still carries all four
    tasks, that one included; [tasksSent] is [4]. *)
Theorem batch_sends_unchecked_task :
  taskExecutors mixedQueue !! type (mixedObjects 1) = None /\
  fst (batch [0; 1; 2; 3]%nat mixedQueue) = Return (mkStats 4 0 1 0, []) /\
  option_map Manager.sentMessages
    (Manager.get "Anqueue-worker-1"
       (workers (snd (batch [0; 1; 2; 3]%nat mixedQueue))))
  = Some [Manager.taskBatch (map mixedObjects [0; 1; 2; 3]%nat)] /\
  taskStack (snd (batch [0; 1; 2; 3]%nat mixedQueue)) = [].
Proof. repeat split; vm_compute; reflexivity. Qed.

(** In [single] the same task is removed and nothing is sent for it. *)
Example single_skips_unchecked_task :
  fst (single [0; 1; 2; 3]%nat mixedQueue) = Return (mkStats 3 0 1 0) /\
  option_map Manager.sentMessages
    (Manager.get "Anqueue-worker-1"
       (workers (snd (single [0; 1; 2; 3]%nat mixedQueue))))
  = Some (map Manager.taskSingle (map mixedObjects [0; 2; 3]%nat)).
Proof. repeat split; vm_compute; reflexivity. Qed.

End Dispatch.

(* ===================================================================== *)
(** * Further properties of the code *)
(* ===================================================================== *)

(** ** The life cycle of a task *)

Section TaskMore.
Import JS QueueTask Scenarios Notions.

(** Execution rewrites a task's run state and nothing it was configured
    with. *)
Lemma execute_fuel_config fuel run k rs t c t' :
  execute_fuel fuel run k rs t = Some (c, t') ->
  uid t' = uid t /\ timeout t' = timeout t /\ maxRetries t' = maxRetries t.
Proof.
  revert k t. induction fuel as [|fuel IH]; intros k t H; simpl in H; [discriminate|].
  destruct (negb _).
  { injection H as <- <-. auto. }
  set (t1 := setRunning _ _) in H.
  assert (Hretry : forall e,
    (if shouldRetry e rs
     then let (again, t2) := retry t1 in
          if again then execute_fuel fuel run (S k) rs t2
          else Some (Throw e, handleError (settleTime (run k)) e t2)
     else Some (Throw e, handleError (settleTime (run k)) e t1)) = Some (c, t') ->
    uid t' = uid t /\ timeout t' = timeout t /\ maxRetries t' = maxRetries t).
  { intros e He. destruct (shouldRetry e rs).
    - destruct (retry t1) as [[] t2] eqn:Hr.
      + apply IH in He as (H1 & H2 & H3). rewrite H1, H2, H3.
        unfold retry in Hr. destruct (retryCount t1 >=? maxRetries t1); [discriminate|].
        injection Hr as <-. auto.
      + unfold retry in Hr. destruct (retryCount t1 >=? maxRetries t1); [|discriminate].
        injection Hr as <-. injection He as <- <-.
        unfold handleError, reject. simpl. destruct (promise t); auto.
    - injection He as <- <-. unfold handleError, reject. simpl.
      destruct (promise t); auto. }
  destruct (settled _); [| apply Hretry in H; exact H | apply Hretry in H; exact H].
  destruct (negb _); injection H as <- <-.
  - auto.
  - unfold resolve. simpl. destruct (promise t); auto.
Qed.






Lemma failure_config (a : Attempt) (t t2 : Task) :
  uid t2 = uid t -> timeout t2 = timeout t -> failure a t2 = failure a t.
Proof.
  intros Hu Ht. unfold failure, timeoutError. rewrite Hu, Ht. reflexivity.
Qed.

Lemma retries_until_exhausted_fuel (n : nat) :
  forall fuel run k rs t,
    (n < fuel)%nat ->
    Z.to_nat (maxRetries t - retryCount t) = n ->
    status t = pending ->
    retryCount t <= maxRetries t ->
    (forall j, exists e, failure (run j) t = Some e /\ shouldRetry e rs = true) ->
    exists e t',
      failure (run (k + n)%nat) t = Some e /\
      execute_fuel fuel run k rs t = Some (Throw e, t') /\
      status t' = failed /\ retryCount t' = maxRetries t /\
      error t' = Some e /\ errorHistory t' = errorHistory t ++ [e].
Proof.
  induction n as [|n IH]; intros fuel run k rs t Hfuel Hn Hp Hle Hall.
  - destruct fuel as [|fuel]; [lia|]. simpl. rewrite Hp. simpl.
    destruct (Hall k) as (e & He & Hsr).
    rewrite Nat.add_0_r. exists e.
    set (t1 := setRunning _ _).
    assert (Hstep : match settled (run k) with
                    | ExecutorReturned _ => False
                    | ExecutorThrew e0 => e0 = e
                    | TimeoutFired => timeoutError t1 = e
                    end).
    { unfold failure in He. destruct (settled (run k)); [discriminate| |];
        injection He as <-; reflexivity. }
    assert (Hr : retry t1 = (false, t1)).
    { apply retry_refused. subst t1. simpl. lia. }
    eexists. split; [exact He|].
    destruct (settled (run k)); [destruct Hstep| |]; subst e;
      rewrite Hsr, Hr; (split; [reflexivity|]);
      unfold handleError, reject; simpl; destruct (promise t); simpl;
      repeat split; auto; lia.
  - destruct fuel as [|fuel]; [lia|]. simpl. rewrite Hp. simpl.
    destruct (Hall k) as (e & He & Hsr).
    set (t1 := setRunning _ _).
    assert (Hstep : match settled (run k) with
                    | ExecutorReturned _ => False
                    | ExecutorThrew e0 => e0 = e
                    | TimeoutFired => timeoutError t1 = e
                    end).
    { unfold failure in He. destruct (settled (run k)); [discriminate| |];
        injection He as <-; reflexivity. }
    destruct (retry_granted t1) as [t2 Hr]; [subst t1; simpl; lia|].
    pose proof (retry_effect _ _ Hr) as (_ & Hc & Hst & _ & _ & _ & _ & Hm & Hh).
    assert (Hu : uid t2 = uid t /\ timeout t2 = timeout t).
    { unfold retry in Hr. destruct (retryCount t1 >=? maxRetries t1); [discriminate|].
      injection Hr as <-. auto. }
    simpl in Hc, Hm, Hh.
    destruct (IH fuel run (S k) rs t2) as (e' & t' & F1 & F2 & F3 & F4 & F5 & F6);
      try lia; try assumption.
    { intros j. destruct (Hall j) as (ej & Hej & Hsrj). exists ej.
      rewrite (failure_config _ t t2) by apply Hu. auto. }
    exists e', t'.
    rewrite (failure_config _ t t2) in F1 by apply Hu.
    replace (k + S n)%nat with (S k + n)%nat by lia.
    split; [exact F1|].
    rewrite F4, F6, Hm, Hh.
    destruct (settled (run k)); [destruct Hstep| |]; subst e;
      rewrite Hsr, Hr; auto.
Qed.

(** X3. A task whose every attempt ends in an error the retry schema accepts
    is attempted [maxRetries - retryCount + 1] times: it is retried until
    [retryCount = maxRetries], then fails with the error of the last attempt,
    which is the only one recorded in [errorHistory]. *)
Theorem retries_until_exhausted (run : nat -> Attempt) (rs : list string)
        (t : Task) :
  status t = pending ->
  retryCount t <= maxRetries t ->
  AlwaysRetryable run rs t ->
  exists e t',
    failure (run (Z.to_nat (maxRetries t - retryCount t))) t = Some e /\
    execute run rs t = Some (Throw e, t') /\
    status t' = failed /\ retryCount t' = maxRetries t /\
    error t' = Some e /\ errorHistory t' = errorHistory t ++ [e].
Proof.
  intros Hp Hle Hall.
  exact (retries_until_exhausted_fuel _ _ run O rs t (Nat.lt_succ_diag_r _)
           eq_refl Hp Hle Hall).
Qed.

Lemma retries_until_exhausted_witness :
  exists e t',
    failure (tooSlow 3) mailTask = Some e /\
    execute tooSlow ["timed out"] mailTask = Some (Throw e, t') /\
    status t' = failed /\ retryCount t' = maxRetries mailTask /\
    error t' = Some e /\ errorHistory t' = errorHistory mailTask ++ [e].
Proof.
  apply (retries_until_exhausted tooSlow ["timed out"] mailTask).
  - reflexivity.
  - vm_compute. discriminate.
  - intros k. exists (timeoutError mailTask). split; reflexivity.
Defined.

(** X4. A task as the constructor built it survives the process channel
    unchanged: reconstructing it from its snapshot gives the same task in
    every field, whatever the environment variables of the receiving
    process are. *)
Theorem fresh_task_roundtrip (env env' : Env) (o : TaskOptions) :
  fromPlainObject env' (toPlainObject (new_Task env o)) = new_Task env o.
Proof.
  unfold fromPlainObject, toPlainObject.
  pose proof (new_Task_uid_nonempty env o) as Hu.
  assert (Hm : maxRetries (new_Task env o) <> 0).
  { simpl. apply num_or_nonzero_default, num_or_nonzero_default. discriminate. }
  assert (Ht : timeout (new_Task env o) <> 0).
  { simpl. apply num_or_nonzero_default, num_or_nonzero_default. discriminate. }
  unfold new_Task at 1. cbn [o_uid o_name o_type o_description o_priority
    o_maxRetries o_delay o_timeout o_data o_userId o_metadata o_runAt].
  rewrite (str_or_nonempty _ _ Hu), !num_or_zero_default,
    (num_or_nonzero _ _ Hm), (num_or_nonzero _ _ Ht).
  reflexivity.
Qed.

(** The run state, on the other hand, does not travel: whatever the task
    went through, its reconstruction is pending with no retry used. *)
Lemma reconstructed_run_state (env : Env) (t : Task) :
  let t' := fromPlainObject env (toPlainObject t) in
  status t' = pending /\ retryCount t' = 0 /\ errorHistory t' = [] /\
  error t' = None /\ progress t' = 0.
Proof. simpl. auto. Qed.

(** X5. [cancel] turns a pending or running task into a cancelled one with
    [completedAt] set, and leaves any other task alone; a second [cancel]
    changes nothing, and a cancelled task can no longer be executed. *)
Theorem cancel_is_final (at_ at' : Z) (t : Task) (run : nat -> Attempt)
        (rs : list string) :
  (status t = pending \/ status t = running ->
     status (cancel at_ t) = cancelled /\
     completedAt (cancel at_ t) = Some at_) /\
  (status t <> pending -> status t <> running -> cancel at_ t = t) /\
  cancel at' (cancel at_ t) = cancel at_ t /\
  (status t = pending \/ status t = running ->
     execute run rs (cancel at_ t)
     = Some (Throw (notPendingError t), cancel at_ t)).
Proof.
  assert (Hc : status t = pending \/ status t = running ->
               status (cancel at_ t) = cancelled /\
               completedAt (cancel at_ t) = Some at_ /\
               uid (cancel at_ t) = uid t).
  { intros [H|H]; unfold cancel, reject; rewrite H; simpl;
      destruct (promise t); auto. }
  split; [intros H; apply Hc in H; tauto|].
  split.
  { intros H1 H2. unfold cancel.
    destruct (status t); try reflexivity; congruence. }
  split.
  { destruct (status t) eqn:Hs;
      try (unfold cancel at 2; rewrite Hs; simpl; unfold cancel; rewrite Hs; reflexivity).
    - destruct Hc as (H1 & _); [auto|]. unfold cancel at 1. rewrite H1. reflexivity.
    - destruct Hc as (H1 & _); [auto|]. unfold cancel at 1. rewrite H1. reflexivity. }
  intros H. destruct (Hc H) as (H1 & _ & H3).
  unfold execute. simpl. rewrite H1. simpl.
  unfold notPendingError. rewrite H3. reflexivity.
Qed.

Lemma cancel_is_final_witness :
  status (cancel 7 mailTask) = cancelled /\
  completedAt (cancel 7 mailTask) = Some 7 /\
  execute succeeds [] (cancel 7 mailTask)
  = Some (Throw (notPendingError mailTask), cancel 7 mailTask).
Proof.
  pose proof (cancel_is_final 7 8 mailTask succeeds []) as (H1 & _ & _ & H4).
  destruct (H1 (or_introl eq_refl)) as [Ha Hb].
  split; [exact Ha | split; [exact Hb | exact (H4 (or_introl eq_refl))]].
Defined.

(** X6. Entries of a validation schema that are not functions have no say:
    [validate] answers as it does on the callable entries alone, and an
    empty schema passes. *)
Theorem validate_ignores_noncallable (schema : list TaskValidationRule) (t : Task) :
  validate schema t = validate (List.filter isCallable schema) t /\
  validate [] t = {| passed := true; reason := "Validation passed" |}.
Proof.
  split; [|reflexivity].
  unfold validate. generalize {| passed := true; reason := "Validation passed" |}.
  induction schema as [|v schema IH]; intros acc; simpl; [reflexivity|].
  destruct v as [x|src f]; simpl; apply IH.
Qed.

End TaskMore.

(* ===================================================================== *)
(** ** Stable sorting *)
(* ===================================================================== *)

Section StableSort.
Import Notions.
Context {A : Type} (keep : A -> A -> bool) (dom : A -> Prop).

(** The comparator is a total preorder on the elements at hand. *)
Hypothesis keep_total : forall a b, keep a b = false -> keep b a = true.
Hypothesis keep_trans :
  forall a b c, dom a -> dom b -> dom c ->
                keep a b = true -> keep b c = true -> keep a c = true.

Lemma insertBy_perm (x : A) (l : list A) : Permutation (insertBy keep x l) (x :: l).
Proof.
  induction l as [|y rest IH]; simpl; [reflexivity|].
  destruct (keep y x); [|reflexivity].
  rewrite IH. apply perm_swap.
Qed.

Lemma insertBy_sorted (x : A) (l : list A) :
  dom x -> List.Forall dom l ->
  StronglySorted (Keeps keep) l -> StronglySorted (Keeps keep) (insertBy keep x l).
Proof.
  intros Hx. induction l as [|y rest IH]; intros Hd Hs; simpl.
  - constructor; constructor.
  - inversion Hs as [|? ? Hrest Hall]; subst.
    inversion Hd as [|? ? Hy Hdrest]; subst.
    destruct (keep y x) eqn:E.
    + constructor; [apply IH; assumption|].
      eapply Permutation_Forall; [symmetry; apply insertBy_perm|].
      constructor; [exact E | exact Hall].
    + constructor; [exact Hs|].
      apply keep_total in E.
      constructor; [exact E|].
      apply List.Forall_forall. intros z Hz.
      apply (keep_trans x y z); auto.
      * exact (proj1 (List.Forall_forall _ _) Hdrest z Hz).
      * exact (proj1 (List.Forall_forall _ _) Hall z Hz).
Qed.

Lemma insertBy_dom (x : A) (l : list A) :
  dom x -> List.Forall dom l -> List.Forall dom (insertBy keep x l).
Proof.
  intros Hx Hl. eapply Permutation_Forall; [symmetry; apply insertBy_perm|].
  constructor; assumption.
Qed.

Lemma sortBy_fold (l acc : list A) :
  List.Forall dom l -> List.Forall dom acc ->
  StronglySorted (Keeps keep) acc ->
  Permutation (fold_left (fun acc x => insertBy keep x acc) l acc) (acc ++ l) /\
  StronglySorted (Keeps keep) (fold_left (fun acc x => insertBy keep x acc) l acc).
Proof.
  revert acc. induction l as [|x l IH]; intros acc Hl Hacc Hs; simpl.
  - rewrite app_nil_r. split; [reflexivity | exact Hs].
  - inversion Hl as [|? ? Hx Hl']; subst.
    destruct (IH (insertBy keep x acc) Hl' (insertBy_dom x acc Hx Hacc)
                 (insertBy_sorted x acc Hx Hacc Hs)) as [Hp Hs'].
    split; [|exact Hs'].
    rewrite Hp, insertBy_perm. apply Permutation_middle.
Qed.

Lemma sortBy_spec (l : list A) :
  List.Forall dom l ->
  Permutation (sortBy keep l) l /\ StronglySorted (Keeps keep) (sortBy keep l).
Proof. intros Hl. apply (sortBy_fold l []); [exact Hl | constructor | constructor]. Qed.

(** Stability, for a selection [sel] of elements the comparator does not
    tell apart: an element that has to go in front of [y] is not followed,
    from [y] on, by any selected element. *)
Variable sel : A -> bool.
Hypothesis sel_block :
  forall x y z, sel x = true -> keep y x = false -> keep y z = true ->
                sel z = false.
Hypothesis keep_refl : forall a, keep a a = true.

Lemma insertBy_filter (x : A) (l : list A) :
  StronglySorted (Keeps keep) l ->
  List.filter sel (insertBy keep x l)
  = List.filter sel l ++ (if sel x then [x] else []).
Proof.
  induction l as [|y rest IH]; intros Hs; simpl.
  - destruct (sel x); reflexivity.
  - inversion Hs as [|? ? Hrest Hall]; subst.
    destruct (keep y x) eqn:E.
    + simpl. rewrite (IH Hrest). destruct (sel y); reflexivity.
    + simpl. destruct (sel x) eqn:Ex.
      * assert (Hy : sel y = false) by exact (sel_block x y y Ex E (keep_refl y)).
        assert (Hr : List.filter sel rest = []).
        { clear IH Hs Hrest. induction Hall as [|z rest Hz Hall IH]; simpl;
            [reflexivity|].
          rewrite (sel_block x y z Ex E Hz). exact IH. }
        rewrite Hy, Hr. reflexivity.
      * rewrite app_nil_r. reflexivity.
Qed.

Lemma sortBy_fold_filter (l acc : list A) :
  List.Forall dom l -> List.Forall dom acc ->
  StronglySorted (Keeps keep) acc ->
  List.filter sel (fold_left (fun acc x => insertBy keep x acc) l acc)
  = List.filter sel acc ++ List.filter sel l.
Proof.
  revert acc. induction l as [|x l IH]; intros acc Hl Hacc Hs; simpl.
  - rewrite app_nil_r. reflexivity.
  - inversion Hl as [|? ? Hx Hl']; subst.
    rewrite (IH _ Hl' (insertBy_dom x acc Hx Hacc)
                (insertBy_sorted x acc Hx Hacc Hs)),
      (insertBy_filter x acc Hs), <- app_assoc.
    destruct (sel x); reflexivity.
Qed.

Lemma sortBy_stable (l : list A) :
  List.Forall dom l -> List.filter sel (sortBy keep l) = List.filter sel l.
Proof.
  intros Hl. apply (sortBy_fold_filter l []); [exact Hl | constructor | constructor].
Qed.

End StableSort.

(* ===================================================================== *)
(** ** The queue facade *)
(* ===================================================================== *)

Section QueueMore.
Import JS QueueTask Queue Strategies Facade Scenarios Notions MoreScenarios.

Lemma sortByPriority_sortBy (q : Queue.Queue) (l : list TaskRef) :
  sortByPriority q l = sortBy (staysBefore q) l.
Proof.
  unfold sortByPriority, sortBy. generalize (@nil TaskRef) as acc.
  assert (H : forall x acc, insertByPriority q x acc = insertBy (staysBefore q) x acc).
  { intros x acc. induction acc as [|y rest IH]; simpl; [reflexivity|].
    rewrite IH. reflexivity. }
  induction l as [|x l IH]; intros acc; simpl; [reflexivity|].
  rewrite H. apply IH.
Qed.

Lemma staysBefore_total (q : Queue.Queue) (a b : TaskRef) :
  staysBefore q a b = false -> staysBefore q b a = true.
Proof. unfold staysBefore. intros H. apply Z.leb_gt in H. apply Z.leb_le. lia. Qed.

Lemma staysBefore_trans (q : Queue.Queue) (a b c : TaskRef) :
  True -> True -> True ->
  staysBefore q a b = true -> staysBefore q b c = true -> staysBefore q a c = true.
Proof.
  unfold staysBefore. intros _ _ _ H1 H2.
  apply Z.leb_le in H1, H2. apply Z.leb_le. lia.
Qed.

Lemma scheduleTasks_perm (q : Queue.Queue) :
  Permutation (taskStack (scheduleTasks q)) (taskStack q).
Proof.
  simpl. rewrite sortByPriority_sortBy.
  apply (sortBy_spec (staysBefore q) (fun _ => True) (staysBefore_total q)
           (staysBefore_trans q)).
  apply List.Forall_forall. auto.
Qed.

(** X7. [scheduleTasks] reorders the stack and nothing else: the stack
    afterwards holds the same tasks, in descending priority, and tasks of
    equal priority keep the order they were added in. *)
Theorem scheduleTasks_stable_sort (q : Queue.Queue) :
  let q' := scheduleTasks q in
  Permutation (taskStack q') (taskStack q) /\
  StronglySorted (fun a b => priority (objects q' b) <= priority (objects q' a))
                 (taskStack q') /\
  (forall p, withPriority q' p (taskStack q') = withPriority q p (taskStack q)) /\
  objects q' = objects q /\ store q' = store q /\ workers q' = workers q.
Proof.
  simpl. rewrite sortByPriority_sortBy.
  pose proof (staysBefore_total q) as Htot.
  pose proof (staysBefore_trans q) as Htr.
  assert (Hd : List.Forall (fun _ : TaskRef => True) (taskStack q))
    by (apply List.Forall_forall; auto).
  destruct (sortBy_spec (staysBefore q) _ Htot Htr (taskStack q) Hd) as [Hp Hs].
  split; [exact Hp|]. split.
  { revert Hs. generalize (sortBy (staysBefore q) (taskStack q)).
    induction 1 as [|a l Hl IH Hall]; constructor; [exact IH|].
    revert Hall. apply List.Forall_impl. intros b Hb. apply Z.leb_le. exact Hb. }
  split; [|auto].
  intros p. unfold withPriority. simpl.
  apply (sortBy_stable (staysBefore q) (fun _ => True)); try assumption.
  - intros x y z Hx Hyx Hyz. unfold staysBefore in *.
    apply Z.eqb_eq in Hx. apply Z.leb_gt in Hyx. apply Z.leb_le in Hyz.
    apply Z.eqb_neq. lia.
  - intros a. unfold staysBefore. apply Z.leb_refl.
Qed.

Lemma find_findIndex {A} (p : A -> bool) (l : list A) :
  match find p l with
  | Some x => exists l1 l2, l = l1 ++ x :: l2 /\ p x = true /\
                            (forall y, In y l1 -> p y = false) /\
                            findIndex p l = Some (length l1)
  | None => findIndex p l = None
  end.
Proof.
  induction l as [|a l IH]; simpl; [reflexivity|].
  destruct (p a) eqn:Ha.
  - exists [], l. repeat split; auto. intros y [].
  - destruct (find p l) as [x|].
    + destruct IH as (l1 & l2 & -> & Hx & Hpre & Hi).
      exists (a :: l1), l2. rewrite Hi. repeat split; auto.
      intros y [<-|Hy]; auto.
    + rewrite IH. reflexivity.
Qed.

Lemma find_append {A} (p : A -> bool) (l1 l2 : list A) :
  find p (l1 ++ l2)
  = match find p l1 with Some x => Some x | None => find p l2 end.
Proof.
  induction l1 as [|a l1 IH]; simpl; [reflexivity|].
  destruct (p a); [reflexivity | exact IH].
Qed.

Lemma findIndex_ext {A} (p p' : A -> bool) (l : list A) :
  (forall x, p x = p' x) -> findIndex p l = findIndex p' l.
Proof.
  intros H. induction l as [|a l IH]; simpl; [reflexivity|].
  rewrite H, IH. reflexivity.
Qed.

Lemma cancel_uid (at_ : Z) (t : Task) : uid (QueueTask.cancel at_ t) = uid t.
Proof.
  unfold QueueTask.cancel, reject.
  destruct (_ || _); [|reflexivity]. simpl. destruct (promise t); reflexivity.
Qed.

(** X8. [Queue.cancel] cancels the first task of the stack that has the uid
    and takes exactly that entry out of the stack, whatever state the task
    is in; no other task object is touched. Without such a task it returns
    [false] and changes nothing. *)
Theorem queue_cancel_removes (taskId : string) (q : Queue.Queue) :
  (forall r, getTask taskId q = Some r ->
     exists l1 l2,
       taskStack q = l1 ++ r :: l2 /\
       (forall r', In r' l1 -> uid (objects q r') <> taskId) /\
       fst (Queue.cancel taskId q) = true /\
       taskStack (snd (Queue.cancel taskId q)) = l1 ++ l2 /\
       objects (snd (Queue.cancel taskId q)) r
       = QueueTask.cancel (clock q) (objects q r) /\
       (forall r', r' <> r ->
          objects (snd (Queue.cancel taskId q)) r' = objects q r')) /\
  (getTask taskId q = None -> Queue.cancel taskId q = (false, q)).
Proof.
  unfold Queue.cancel, getTask.
  pose proof (find_findIndex (hasUid q taskId) (taskStack q)) as Hf.
  destruct (find (hasUid q taskId) (taskStack q)) as [r0|].
  - split; [|discriminate]. intros r [= <-].
    destruct Hf as (l1 & l2 & Hst & Hr & Hpre & Hi).
    exists l1, l2. split; [exact Hst|].
    split.
    { intros r' Hr' Heq. apply Hpre in Hr'. unfold hasUid in Hr'.
      apply String.eqb_neq in Hr'. auto. }
    split; [reflexivity|].
    set (q1 := mutate r0 (QueueTask.cancel (clock q)) q).
    assert (Hi1 : findIndex (hasUid q1 taskId) (taskStack q1) = Some (length l1)).
    { rewrite <- Hi. apply findIndex_ext. intros x. unfold hasUid, q1. simpl.
      destruct (Nat.eqb x r0) eqn:E; [|reflexivity].
      apply Nat.eqb_eq in E. subst x. rewrite cancel_uid. reflexivity. }
    unfold remove. rewrite Hi1. cbn [snd].
    assert (Hst1 : taskStack q1 = l1 ++ r0 :: l2) by exact Hst.
    rewrite Hst1, splice1_middle. simpl.
    rewrite Nat.eqb_refl. repeat split; auto.
    intros r' Hne. apply Nat.eqb_neq in Hne. rewrite Hne. reflexivity.
  - split; [discriminate|]. reflexivity.
Qed.

Lemma queue_cancel_removes_witness :
  exists l1 l2,
    taskStack namedQueue = l1 ++ O :: l2 /\
    (forall r', In r' l1 -> uid (objects namedQueue r') <> "a") /\
    fst (Queue.cancel "a" namedQueue) = true /\
    taskStack (snd (Queue.cancel "a" namedQueue)) = l1 ++ l2 /\
    objects (snd (Queue.cancel "a" namedQueue)) O
    = QueueTask.cancel (clock namedQueue) (objects namedQueue O) /\
    (forall r', r' <> O ->
       objects (snd (Queue.cancel "a" namedQueue)) r' = objects namedQueue r').
Proof.
  exact (proj1 (queue_cancel_removes "a" namedQueue) O eq_refl).
Defined.

(** X9. [add] does not look at the uids already in the stack. A task added
    under a uid no task of the stack has is the one [getTask] finds, and
    removing that uid gives the stack back as it was; a task added under a
    uid that is already there stays hidden behind the older task. *)
Theorem add_then_lookup (r : TaskRef) (silent : bool) (q : Queue.Queue) :
  let u := uid (objects q r) in
  (getTask u q = None ->
     getTask u (add r q) = Some r /\
     fst (remove u silent (add r q)) = true /\
     taskStack (snd (remove u silent (add r q))) = taskStack q) /\
  (forall r0, getTask u q = Some r0 -> getTask u (add r q) = Some r0).
Proof.
  simpl. unfold getTask, add, remove. simpl.
  change (hasUid (log _ _)) with (hasUid q).
  change (hasUid (with_taskStack (taskStack q ++ [r]) q)) with (hasUid q).
  pose proof (find_findIndex (hasUid q (uid (objects q r))) (taskStack q)) as Hf.
  assert (Hr : hasUid q (uid (objects q r)) r = true)
    by (unfold hasUid; apply String.eqb_refl).
  split.
  - intros Hn. rewrite Hn in Hf.
    rewrite find_append, Hn. simpl. rewrite Hr. split; [reflexivity|].
    assert (Hi : findIndex (hasUid q (uid (objects q r))) (taskStack q ++ [r])
                 = Some (length (taskStack q))).
    { pose proof (proj1 (findIndex_None _ _) Hf) as Hf'. clear Hf. revert Hf'.
      generalize (taskStack q) as l. induction l as [|a l IH]; intros Hf; simpl.
      - rewrite Hr. reflexivity.
      - rewrite (Hf a) by (simpl; auto). rewrite IH; [reflexivity|].
        intros x Hx. apply Hf. simpl. auto. }
    rewrite Hi. split; [reflexivity|].
    rewrite splice1_middle, app_nil_r. destruct silent; reflexivity.
  - intros r0 H0. rewrite find_append, H0. reflexivity.
Qed.

Lemma add_then_lookup_witness :
  (getTask "d" (add 3%nat letteredQueue) = Some 3%nat /\
   fst (remove "d" true (add 3%nat letteredQueue)) = true /\
   taskStack (snd (remove "d" true (add 3%nat letteredQueue)))
   = taskStack letteredQueue) /\
  getTask "a" (add 2%nat letteredQueue) = Some O.
Proof.
  split.
  - exact (proj1 (add_then_lookup 3%nat true letteredQueue) eq_refl).
  - exact (proj2 (add_then_lookup 2%nat true letteredQueue) O eq_refl).
Defined.

End QueueMore.

(* ===================================================================== *)
(** ** One dispatch cycle *)
(* ===================================================================== *)

Section DispatchMore.
Import JS QueueTask Queue Strategies Facade Scenarios Notions MoreScenarios.

Lemma preserves_ret {S E A} (P : S -> Prop) (a : A) : preserves P (@ret S E A a).
Proof. intros s H. exact H. Qed.

Lemma preserves_bind {S E A B} (P : S -> Prop) (m : M S E A) (k : A -> M S E B) :
  preserves P m -> (forall a, preserves P (k a)) -> preserves P (bind m k).
Proof.
  intros Hm Hk s Hs. unfold bind. specialize (Hm s Hs).
  destruct (m s) as [[a|e] s']; simpl in *; [apply Hk|]; assumption.
Qed.

Lemma preserves_get {S E} (P : S -> Prop) : preserves P (@get S E).
Proof. intros s H. exact H. Qed.

Lemma preserves_act (P : Queue.Queue -> Prop) (f : Queue.Queue -> Queue.Queue) :
  (forall q, P q -> P (f q)) -> preserves P (act f).
Proof. intros H q Hq. apply H, Hq. Qed.

Lemma objects_remove taskId silent q :
  objects (snd (remove taskId silent q)) = objects q.
Proof.
  unfold remove. destruct (findIndex _ _); [|reflexivity].
  destruct silent; reflexivity.
Qed.

Lemma bounded_objects (q q' : Queue.Queue) :
  objects q' = objects q -> RetriesBounded q -> RetriesBounded q'.
Proof. intros H Hq r. rewrite H. apply Hq. Qed.

Lemma bounded_onWorkers {A} (m : M Manager.WorkerManager Error A) :
  preserves RetriesBounded (onWorkers m).
Proof.
  intros q Hq. unfold onWorkers. destruct (m (workers q)) as [c mgr].
  exact Hq.
Qed.

Lemma bounded_sendTo wid msg : preserves RetriesBounded (sendTo wid msg).
Proof.
  apply preserves_act. intros q Hq.
  destruct (Manager.get wid (workers q)); exact Hq.
Qed.

Lemma bounded_remove (f : Queue.Queue -> string) silent :
  preserves RetriesBounded (act (fun q => snd (remove (f q) silent q))).
Proof.
  apply preserves_act. intros q. apply bounded_objects, objects_remove.
Qed.

Lemma bounded_check stats task : preserves RetriesBounded (check stats task).
Proof.
  intros q Hq r. destruct (check stats task q) as [c q'] eqn:E.
  exact (check_retry_bound _ _ _ _ _ E r (Hq r)).
Qed.

Lemma bounded_single_step stats task :
  preserves RetriesBounded (single_step stats task).
Proof.
  unfold single_step. apply preserves_bind; [apply bounded_onWorkers|].
  intros [[wid w]|]; [|apply preserves_ret].
  apply preserves_bind; [apply bounded_check|].
  intros [stats' o]. destruct o; try apply preserves_ret.
  apply preserves_bind; [apply preserves_get|]. intros q.
  apply preserves_bind; [apply bounded_sendTo|]. intros _.
  apply preserves_bind; [|intros _; apply preserves_ret].
  apply (bounded_remove (fun q => uid (objects q task))).
Qed.

Lemma bounded_single_loop tasks :
  forall stats, preserves RetriesBounded (single_loop stats tasks).
Proof.
  induction tasks as [|task rest IH]; intros stats; simpl.
  - apply preserves_ret.
  - apply preserves_bind; [apply bounded_single_step | exact IH].
Qed.

Lemma bounded_batch_checks chunk :
  forall stats, preserves RetriesBounded (batch_checks stats chunk).
Proof.
  induction chunk as [|task rest IH]; intros stats; simpl.
  - apply preserves_ret.
  - apply preserves_bind; [apply bounded_check|]. intros [stats' o]. apply IH.
Qed.

Lemma bounded_removeAll chunk : preserves RetriesBounded (removeAll chunk).
Proof.
  induction chunk as [|task rest IH]; simpl.
  - apply preserves_ret.
  - apply preserves_bind; [|intros _; exact IH].
    apply (bounded_remove (fun q => uid (objects q task))).
Qed.

Lemma bounded_batch_step acc worker :
  preserves RetriesBounded (batch_step acc worker).
Proof.
  destruct acc as [stats tasks]. unfold batch_step.
  destruct (_ || _); [apply preserves_ret|].
  destruct (_ =? 0); [apply preserves_ret|].
  apply preserves_bind; [apply bounded_batch_checks|]. intros stats'.
  apply preserves_bind; [apply preserves_get|]. intros q.
  apply preserves_bind; [apply bounded_sendTo|]. intros _.
  apply preserves_bind; [apply bounded_removeAll|]. intros _.
  apply preserves_ret.
Qed.

Lemma bounded_batch_loop ws :
  forall acc, preserves RetriesBounded (batch_loop acc ws).
Proof.
  induction ws as [|w rest IH]; intros acc; simpl.
  - apply preserves_ret.
  - apply preserves_bind; [apply bounded_batch_step | exact IH].
Qed.

(** X10. Whatever a dispatch cycle does with its tasks (send them, count
    them, drop them, or throw half way), it leaves no task with more retries
    used than it is allowed, if there was none before. *)
Theorem runTasks_retries_bounded (tasks : option (list TaskRef)) (q : Queue.Queue) :
  RetriesBounded q -> RetriesBounded (snd (runTasks tasks q)).
Proof.
  revert q. change (preserves RetriesBounded (runTasks tasks)).
  unfold runTasks.
  apply preserves_bind; [apply preserves_get|]. intros q.
  destruct (_ =? 0); [apply preserves_ret|].
  apply preserves_bind.
  { destruct (_ >? 1); [|apply preserves_ret].
    apply preserves_act. intros q0 H. exact H. }
  intros _. apply preserves_bind; [apply preserves_get|]. intros q1.
  apply preserves_bind.
  { intros s H. exact H. }
  intros _. destruct (String.eqb _ _).
  - apply bounded_single_loop.
  - apply preserves_bind; [|intros r; apply preserves_ret].
    unfold batch. apply preserves_bind; [apply preserves_get|]. intros q2.
    apply bounded_batch_loop.
Qed.

Lemma runTasks_retries_bounded_witness :
  RetriesBounded mixedQueue /\
  RetriesBounded (snd (runTasks None mixedQueue)).
Proof.
  assert (H : RetriesBounded mixedQueue).
  { intros r. destruct r as [|[|r]]; vm_compute; discriminate. }
  split; [exact H | exact (runTasks_retries_bounded None mixedQueue H)].
Defined.

(** X11. A dispatch cycle with nothing to send returns the empty counters
    and leaves the queue as it is. With tasks to send but no worker in the
    pool it throws the [TypeError] of [reduce] on an empty array: the stack
    has at most been reordered, and nothing was sent, saved or counted. *)
Theorem runTasks_without_work_or_workers (tasks : option (list TaskRef))
        (q : Queue.Queue) :
  let given := match tasks with Some l => l | None => getPendingTasks q end in
  (given = [] -> runTasks tasks q = (Return noStats, q)) /\
  (given <> [] -> Manager.workers (workers q) = [] ->
   exists q',
     runTasks tasks q = (Throw Manager.emptyArrayReduce, q') /\
     Permutation (taskStack q') (taskStack q) /\
     objects q' = objects q /\ store q' = store q /\ workers q' = workers q).
Proof.
  simpl. unfold runTasks, bind, get.
  set (given := match tasks with Some l => l | None => getPendingTasks q end).
  split.
  - intros ->. reflexivity.
  - intros Hne Hw. destruct given as [|t rest] eqn:Hg; [congruence|].
    replace (Z.of_nat (length (t :: rest)) =? 0) with false
      by (symmetry; apply Z.eqb_neq; simpl; lia).
    destruct (Z.of_nat (length (t :: rest)) >? 1).
    + unfold act, modify. cbv beta iota.
      change (workers (scheduleTasks q)) with (workers q). rewrite Hw. simpl.
      eexists. split; [reflexivity|].
      split; [apply scheduleTasks_perm | auto].
    + unfold ret. cbv beta iota. rewrite Hw. simpl.
      exists q. auto.
Qed.

Lemma runTasks_without_work_or_workers_witness :
  runTasks (Some []) namedQueue = (Return noStats, namedQueue) /\
  exists q',
    runTasks None unstaffedQueue = (Throw Manager.emptyArrayReduce, q') /\
    Permutation (taskStack q') (taskStack unstaffedQueue) /\
    objects q' = objects unstaffedQueue /\ store q' = store unstaffedQueue /\
    workers q' = workers unstaffedQueue.
Proof.
  split.
  - exact (proj1 (runTasks_without_work_or_workers (Some []) namedQueue) eq_refl).
  - apply (proj2 (runTasks_without_work_or_workers None unstaffedQueue)).
    + vm_compute. discriminate.
    + reflexivity.
Defined.

End DispatchMore.

(* ===================================================================== *)
(** ** The worker pool *)
(* ===================================================================== *)

Section PoolMore.
Import JS QueueTask Manager Scenarios Notions MoreScenarios.

Lemma map_set_keys (id : string) (w : Worker) (ws : list (string * Worker)) :
  map fst (map_set id w ws)
  = if existsb (String.eqb id) (map fst ws) then map fst ws
    else map fst ws ++ [id].
Proof.
  induction ws as [|[k w'] rest IH]; simpl; [reflexivity|].
  destruct (String.eqb id k) eqn:E; simpl; [reflexivity|].
  rewrite IH. destruct (existsb _ _); reflexivity.
Qed.

Lemma existsb_eqb_In (id : string) (ks : list string) :
  existsb (String.eqb id) ks = true <-> In id ks.
Proof.
  rewrite existsb_exists. split.
  - intros (k & Hk & E). apply String.eqb_eq in E. subst. exact Hk.
  - intros H. exists id. split; [exact H | apply String.eqb_refl].
Qed.

Lemma map_get_In (id : string) (ws : list (string * Worker)) :
  map_get id ws <> None <-> In id (map fst ws).
Proof.
  induction ws as [|[k w] rest IH]; simpl; [tauto|].
  destruct (String.eqb id k) eqn:E.
  - apply String.eqb_eq in E. subst. split; [auto | discriminate].
  - apply String.eqb_neq in E. rewrite IH. split; [auto|].
    intros [H|H]; [congruence | exact H].
Qed.

Lemma map_get_set_same (id : string) (w : Worker) (ws : list (string * Worker)) :
  map_get id (map_set id w ws) = Some w.
Proof.
  induction ws as [|[k w'] rest IH]; simpl.
  - rewrite String.eqb_refl. reflexivity.
  - destruct (String.eqb id k) eqn:E; simpl; rewrite E; [reflexivity | exact IH].
Qed.

Lemma map_get_set_other (id id' : string) (w : Worker) (ws : list (string * Worker)) :
  id' <> id -> map_get id' (map_set id w ws) = map_get id' ws.
Proof.
  intros Hne. induction ws as [|[k w'] rest IH]; simpl.
  - apply String.eqb_neq in Hne. rewrite Hne. reflexivity.
  - destruct (String.eqb id k) eqn:E; simpl.
    + apply String.eqb_eq in E. subst k.
      apply String.eqb_neq in Hne. rewrite Hne. reflexivity.
    + rewrite IH. reflexivity.
Qed.

Lemma map_set_length (id : string) (w : Worker) (ws : list (string * Worker)) :
  length (map_set id w ws)
  = if existsb (String.eqb id) (map fst ws) then length ws else S (length ws).
Proof.
  rewrite <- (length_map fst), map_set_keys.
  destruct (existsb _ _); rewrite ?length_app, !length_map; simpl; lia.
Qed.

Lemma map_set_NoDup (id : string) (w : Worker) (ws : list (string * Worker)) :
  List.NoDup (map fst ws) -> List.NoDup (map fst (map_set id w ws)).
Proof.
  intros H. rewrite map_set_keys.
  destruct (existsb _ _) eqn:E; [exact H|].
  apply List.NoDup_app; [exact H | constructor; [intros [] | constructor] |].
  intros k Hk [<-|[]].
  apply existsb_eqb_In in Hk. congruence.
Qed.

Lemma map_delete_keys (id : string) (ws : list (string * Worker)) :
  map fst (map_delete id ws)
  = List.filter (fun k => negb (String.eqb id k)) (map fst ws).
Proof.
  induction ws as [|[k w] rest IH]; simpl; [reflexivity|].
  destruct (String.eqb id k); simpl; rewrite IH; reflexivity.
Qed.

Lemma map_delete_NoDup (id : string) (ws : list (string * Worker)) :
  List.NoDup (map fst ws) -> List.NoDup (map fst (map_delete id ws)).
Proof. intros H. rewrite map_delete_keys. apply List.NoDup_filter, H. Qed.

Lemma map_delete_length (id : string) (ws : list (string * Worker)) :
  List.NoDup (map fst ws) ->
  length (map_delete id ws)
  = match map_get id ws with
    | Some _ => pred (length ws)
    | None => length ws
    end.
Proof.
  induction ws as [|[k w] rest IH]; intros Hnd; simpl; [reflexivity|].
  inversion Hnd as [|? ? Hk Hrest]; subst.
  destruct (String.eqb id k) eqn:E; simpl.
  - apply String.eqb_eq in E. subst k.
    rewrite (IH Hrest).
    destruct (map_get id rest) eqn:G; [|reflexivity].
    exfalso. apply Hk. apply map_get_In. congruence.
  - rewrite (IH Hrest). destruct (map_get id rest) eqn:G; [|reflexivity].
    destruct rest; [discriminate G | reflexivity].
Qed.

Lemma map_get_delete_same (id : string) (ws : list (string * Worker)) :
  map_get id (map_delete id ws) = None.
Proof.
  induction ws as [|[k w] rest IH]; simpl; [reflexivity|].
  destruct (String.eqb id k) eqn:E; simpl; [exact IH|].
  rewrite E. exact IH.
Qed.

Lemma map_get_delete_other (id id' : string) (ws : list (string * Worker)) :
  id' <> id -> map_get id' (map_delete id ws) = map_get id' ws.
Proof.
  intros Hne. induction ws as [|[k w] rest IH]; simpl; [reflexivity|].
  destruct (String.eqb id k) eqn:E; simpl.
  - apply String.eqb_eq in E. subst k.
    apply String.eqb_neq in Hne. rewrite Hne. exact IH.
  - rewrite IH. reflexivity.
Qed.

Lemma PoolOK_spawn (wid : option string) (mgr : WorkerManager) :
  PoolOK mgr -> PoolOK (snd (spawn wid mgr)).
Proof.
  intros [Hnd Hsz]. unfold spawn.
  destruct (size mgr >=? maxWorkers mgr) eqn:E; [split; assumption|].
  destruct (negb (workerFileExists mgr)); [split; assumption|].
  simpl. split.
  - apply map_set_NoDup, Hnd.
  - unfold size in *. simpl. rewrite map_set_length.
    assert (Z.of_nat (length (workers mgr)) < maxWorkers mgr).
    { destruct (Z.geb_spec (Z.of_nat (length (workers mgr))) (maxWorkers mgr));
        [discriminate | lia]. }
    destruct (existsb _ _); lia.
Qed.

Lemma PoolOK_remove (id : string) (mgr : WorkerManager) :
  PoolOK mgr -> PoolOK (snd (remove id mgr)).
Proof.
  intros [Hnd Hsz]. unfold remove. simpl. split.
  - apply map_delete_NoDup, Hnd.
  - unfold size in *. simpl.
    pose proof (List.filter_length_le
                  (fun entry => negb (String.eqb id (fst entry))) (workers mgr)).
    unfold map_delete. lia.
Qed.

(** X12. The pool stays a pool: no id occurs twice and there are never more
    handles than [maxWorkers], whatever of [spawn], [getAvailable],
    [remove], the restart of a crashed worker and [broadcast] is called, and
    whether the call returns or throws. *)
Theorem pool_invariant (mgr : WorkerManager) :
  PoolOK mgr ->
  (forall wid, PoolOK (snd (spawn wid mgr))) /\
  PoolOK (snd (getAvailable mgr)) /\
  (forall id, PoolOK (snd (remove id mgr))) /\
  (forall id, PoolOK (snd (restart id mgr))) /\
  (forall message, PoolOK (broadcast message mgr)).
Proof.
  intros H. split; [intros wid; apply PoolOK_spawn, H|].
  split.
  { unfold getAvailable.
    pose proof (PoolOK_spawn None mgr H) as Hs.
    destruct (spawn None mgr) as [[w|e] mgr'].
    - destruct (size mgr =? 0); [exact Hs|].
      destruct (_ && _); [exact Hs|].
      destruct (reduce _ _); exact H.
    - destruct (size mgr =? 0); [exact Hs|].
      destruct (_ && _); [exact Hs|].
      destruct (reduce _ _); exact H. }
  split; [intros id; apply PoolOK_remove, H|].
  split; [intros id; unfold restart; apply PoolOK_spawn, PoolOK_remove, H|].
  intros message. destruct H as [Hnd Hsz]. unfold broadcast, PoolOK, size. simpl.
  rewrite map_map, length_map. simpl. split; assumption.
Qed.

Lemma pool_invariant_witness :
  PoolOK twoPool /\ PoolOK (snd (getAvailable twoPool)) /\
  PoolOK (snd (restart "Anqueue-worker-2" twoPool)).
Proof.
  assert (H : PoolOK twoPool).
  { split; [|vm_compute; discriminate].
    repeat constructor; simpl; intuition discriminate. }
  destruct (pool_invariant twoPool H) as (_ & H2 & _ & H4 & _).
  split; [exact H | split; [exact H2 | exact (H4 "Anqueue-worker-2")]].
Defined.

(** X13. A crashed worker is replaced in place: when its id is still in a
    pool that is a [Map] within its bound, the restart returns a fresh,
    unpolled handle under the same id, every other handle stays, and the
    size of the pool is what it was. *)
Theorem restart_replaces_handle (id : string) (mgr : WorkerManager) :
  PoolOK mgr -> get id mgr <> None -> workerFileExists mgr = true ->
  exists mgr',
    restart id mgr = (Return (id, new_Worker), mgr') /\
    size mgr' = size mgr /\
    get id mgr' = Some new_Worker /\
    (forall id', id' <> id -> get id' mgr' = get id' mgr).
Proof.
  intros [Hnd Hsz] Hin Hfile. unfold restart, remove, get in *. cbn [snd].
  set (mgr1 := with_workers (map_delete id (workers mgr)) mgr).
  assert (Hlen : length (map_delete id (workers mgr)) = pred (length (workers mgr))).
  { rewrite (map_delete_length id _ Hnd).
    destruct (map_get id (workers mgr)); [reflexivity | congruence]. }
  assert (Hpos : (0 < length (workers mgr))%nat).
  { destruct (workers mgr); [simpl in Hin; congruence | simpl; lia]. }
  assert (Hlt : size mgr1 < maxWorkers mgr1).
  { unfold size in *. unfold mgr1. simpl. rewrite Hlen. lia. }
  rewrite (spawn_ok (Some id) mgr1 Hlt Hfile).
  eexists. split; [reflexivity|]. unfold size, set. simpl.
  rewrite map_set_length.
  replace (existsb (String.eqb id) (map fst (map_delete id (workers mgr))))
    with false.
  2:{ symmetry. apply not_true_is_false. intros E.
      apply existsb_eqb_In, map_get_In in E.
      apply E, map_get_delete_same. }
  rewrite Hlen.
  split; [lia|]. split; [apply map_get_set_same|].
  intros id' Hne. rewrite (map_get_set_other _ _ _ _ Hne).
  apply map_get_delete_other, Hne.
Qed.

Lemma restart_replaces_handle_witness :
  exists mgr',
    restart "Anqueue-worker-1" twoPool
    = (Return ("Anqueue-worker-1", new_Worker), mgr') /\
    size mgr' = size twoPool /\
    get "Anqueue-worker-1" mgr' = Some new_Worker /\
    (forall id', id' <> "Anqueue-worker-1" -> get id' mgr' = get id' twoPool).
Proof.
  apply (restart_replaces_handle "Anqueue-worker-1" twoPool).
  - split; [|vm_compute; discriminate].
    repeat constructor; simpl; intuition discriminate.
  - vm_compute. discriminate.
  - reflexivity.
Defined.

(** X14. [spawn] does not check whether the id is taken. Under an id that
    is in the pool, a generated one included, it puts a fresh handle in the
    place of the old one: the pool does not grow, and the handle that was
    registered is no longer reachable through the manager. *)
Theorem spawn_replaces_taken_id (wid : option string) (mgr : WorkerManager)
        (old : Worker) :
  let id := match wid with Some i => i | None => generateId mgr end in
  get id mgr = Some old ->
  size mgr < maxWorkers mgr -> workerFileExists mgr = true ->
  exists mgr',
    spawn wid mgr = (Return (id, new_Worker), mgr') /\
    size mgr' = size mgr /\
    get id mgr' = Some new_Worker /\
    (forall id', id' <> id -> get id' mgr' = get id' mgr).
Proof.
  simpl. intros Hold Hlt Hfile.
  rewrite (spawn_ok wid mgr Hlt Hfile).
  eexists. split; [reflexivity|]. unfold size, set, get in *. simpl.
  rewrite map_set_length.
  replace (existsb _ _) with true.
  2:{ symmetry. apply existsb_eqb_In, map_get_In. congruence. }
  split; [reflexivity|]. split; [apply map_get_set_same|].
  intros id' Hne. apply map_get_set_other, Hne.
Qed.

Lemma spawn_replaces_taken_id_witness :
  generateId shrunkPool = "Anqueue-worker-2" /\
  exists mgr',
    spawn None shrunkPool = (Return ("Anqueue-worker-2", new_Worker), mgr') /\
    size mgr' = size shrunkPool /\
    get "Anqueue-worker-2" mgr' = Some new_Worker /\
    (forall id', id' <> "Anqueue-worker-2" -> get id' mgr' = get id' shrunkPool).
Proof.
  split; [reflexivity|].
  apply (spawn_replaces_taken_id None shrunkPool (polled "Anqueue-worker-2" 2)).
  - reflexivity.
  - vm_compute. reflexivity.
  - reflexivity.
Defined.

Lemma relativeLoad_total (a b : string * Worker) :
  relativeLoad_le a b = false -> relativeLoad_le b a = true.
Proof.
  unfold relativeLoad_le. intros H. apply Z.leb_gt in H. apply Z.leb_le. lia.
Qed.

Lemma relativeLoad_trans (a b c : string * Worker) :
  0 < maxConcurrentTasks (snd a) -> 0 < maxConcurrentTasks (snd b) ->
  0 < maxConcurrentTasks (snd c) ->
  relativeLoad_le a b = true -> relativeLoad_le b c = true ->
  relativeLoad_le a c = true.
Proof.
  unfold relativeLoad_le. intros Ha Hb Hc H1 H2.
  apply Z.leb_le in H1, H2. apply Z.leb_le.
  apply (Z.mul_le_mono_pos_r _ _ (maxConcurrentTasks (snd b)) Hb).
  apply (Z.mul_le_mono_nonneg_r _ _ (maxConcurrentTasks (snd c))) in H1; [|lia].
  apply (Z.mul_le_mono_nonneg_r _ _ (maxConcurrentTasks (snd a))) in H2; [|lia].
  lia.
Qed.

Lemma sortByRelativeLoad_sortBy (l : list (string * Worker)) :
  sortByRelativeLoad l = sortBy relativeLoad_le l.
Proof.
  unfold sortByRelativeLoad, sortBy. generalize (@nil (string * Worker)) as acc.
  assert (H : forall x acc, insert_sorted x acc = insertBy relativeLoad_le x acc).
  { intros x acc. induction acc as [|y rest IH]; simpl; [reflexivity|].
    rewrite IH. reflexivity. }
  induction l as [|x l IH]; intros acc; simpl; [reflexivity|].
  rewrite H. apply IH.
Qed.

(** X15. [getAvailableWorkers] returns exactly the handles that were polled
    and are below their capacity, each as often as it is in the pool,
    ordered by load relative to capacity, the least loaded first (the
    capacities being positive, as the comparator divides by them). *)
Theorem getAvailableWorkers_sorted (mgr : WorkerManager) :
  (forall w, In w (workers mgr) -> 0 < maxConcurrentTasks (snd w)) ->
  Permutation (getAvailableWorkers mgr) (List.filter isAvailable (workers mgr)) /\
  (forall w, In w (getAvailableWorkers mgr) <->
             In w (workers mgr) /\ isAvailable w = true) /\
  StronglySorted RelativeLoadLe (getAvailableWorkers mgr).
Proof.
  intros Hpos. unfold getAvailableWorkers. rewrite sortByRelativeLoad_sortBy.
  assert (Hd : List.Forall (fun w => 0 < maxConcurrentTasks (snd w))
                           (List.filter isAvailable (workers mgr))).
  { apply List.Forall_forall. intros w Hw. apply filter_In in Hw. apply Hpos, Hw. }
  destruct (sortBy_spec relativeLoad_le _ relativeLoad_total relativeLoad_trans
                        _ Hd) as [Hp Hs].
  split; [exact Hp|]. split.
  - intros w. rewrite <- filter_In. split; apply Permutation_in;
      [exact Hp | symmetry; exact Hp].
  - revert Hs. generalize (sortBy relativeLoad_le (List.filter isAvailable (workers mgr))).
    induction 1 as [|a l Hl IH Hall]; constructor; [exact IH|].
    revert Hall. apply List.Forall_impl. intros b Hb.
    unfold RelativeLoadLe. apply Z.leb_le. exact Hb.
Qed.

Lemma getAvailableWorkers_sorted_witness :
  Permutation (getAvailableWorkers twoPool)
              (List.filter isAvailable (workers twoPool)) /\
  (forall w, In w (getAvailableWorkers twoPool) <->
             In w (workers twoPool) /\ isAvailable w = true) /\
  StronglySorted RelativeLoadLe (getAvailableWorkers twoPool).
Proof.
  apply (getAvailableWorkers_sorted twoPool).
  intros w [<-|[<-|[]]]; reflexivity.
Defined.



Lemma getAvailable_least_loaded_witness :
  exists w,
    getAvailable twoPool = (Return (Some w), twoPool) /\
    In w (workers twoPool) /\ isAvailable w = true /\
    forall w', In w' (workers twoPool) -> isAvailable w' = true ->
               loadOf w <= loadOf w'.
Proof.
  apply (getAvailable_least_loaded twoPool
           ("Anqueue-worker-1", polled "Anqueue-worker-1" 4)).
  - simpl. auto.
  - reflexivity.
Defined.

End PoolMore.

(* ===================================================================== *)
(** ** File names and the executor registry *)
(* ===================================================================== *)

Section RegistryMore.
Import JS QueueTask Files Registry Scenarios Notions MoreScenarios.

Lemma slice_split (n : nat) (s : string) : s = slice_to n s +:+ slice_from n s.
Proof.
  revert s. induction n as [|n IH]; intros s.
  - destruct s; reflexivity.
  - destruct s as [|c s]; [reflexivity|]. simpl.
    rewrite append_cons, <- IH. reflexivity.
Qed.

Lemma slice_to_length (n : nat) (s : string) :
  (n <= String.length s)%nat -> String.length (slice_to n s) = n.
Proof.
  revert s. induction n as [|n IH]; intros s H.
  - destruct s; reflexivity.
  - destruct s as [|c s]; simpl in *; [lia|]. rewrite IH; lia.
Qed.

Lemma slice_to_append (a b : string) : slice_to (String.length a) (a +:+ b) = a.
Proof.
  induction a as [|c a IH]; [reflexivity|].
  rewrite append_cons. simpl. rewrite IH. reflexivity.
Qed.

Lemma slice_from_append (a b : string) : slice_from (String.length a) (a +:+ b) = b.
Proof.
  induction a as [|c a IH]; [reflexivity|].
  rewrite append_cons. exact IH.
Qed.

Lemma lastIndexOf_bound (c : ascii) (s : string) (i : nat) :
  lastIndexOf c s = Some i -> (i < String.length s)%nat.
Proof.
  revert i. induction s as [|d s IH]; intros i H; simpl in *; [discriminate|].
  destruct (lastIndexOf c s) as [j|].
  - injection H as <-. specialize (IH j eq_refl). lia.
  - destruct (Ascii.eqb d c); [injection H as <-; lia | discriminate].
Qed.

Lemma lastIndexOf_split (c : ascii) (s : string) (i : nat) :
  lastIndexOf c s = Some i ->
  s = slice_to i s +:+ String c (slice_from (S i) s) /\
  lastIndexOf c (slice_from (S i) s) = None.
Proof.
  revert i. induction s as [|d s IH]; intros i H; simpl in H; [discriminate|].
  destruct (lastIndexOf c s) as [j|] eqn:E.
  - injection H as <-. destruct (IH j eq_refl) as [H1 H2].
    split; [|exact H2].
    change (slice_to (S j) (String d s)) with (String d (slice_to j s)).
    change (slice_from (S (S j)) (String d s)) with (slice_from (S j) s).
    rewrite append_cons, <- H1. reflexivity.
  - destruct (Ascii.eqb_spec d c) as [->|]; [|discriminate]. injection H as <-.
    split; [|destruct s; exact E].
    simpl. destruct s; reflexivity.
Qed.

Lemma lastIndexOf_append (c : ascii) (a b : string) :
  lastIndexOf c (a +:+ b)
  = match lastIndexOf c b with
    | Some i => Some (String.length a + i)%nat
    | None => lastIndexOf c a
    end.
Proof.
  induction a as [|d a IH].
  - rewrite append_nil. simpl. destruct (lastIndexOf c b); reflexivity.
  - rewrite append_cons. simpl. rewrite IH.
    destruct (lastIndexOf c b); reflexivity.
Qed.

(** X17. [getFileParts] splits the base name of a path at its last dot:
    either there is no extension and the name is the whole base name, or the
    base name reads [name.extension] with a non-empty name. The extension
    never holds a dot, so only the last of several suffixes is taken off. *)
Theorem getFileParts_splits (path : string) :
  let parts := getFileParts path in
  filename parts = basename path /\
  ((extension parts = "" /\ nameWithoutExtension parts = filename parts) \/
   (filename parts = nameWithoutExtension parts +:+ "." +:+ extension parts /\
    nameWithoutExtension parts <> "")) /\
  lastIndexOf dot (extension parts) = None.
Proof.
  simpl. unfold getFileParts.
  destruct (lastIndexOf dot (basename path)) as [[|i]|] eqn:E; simpl.
  - auto.
  - destruct (lastIndexOf_split _ _ _ E) as [H1 H2].
    split; [reflexivity|]. split; [|exact H2]. right. split; [exact H1|].
    apply lastIndexOf_bound in E.
    destruct (basename path); simpl in *; [lia | discriminate].
  - auto.
Qed.

Lemma endsWith_split (s suffix : string) :
  endsWith s suffix = true ->
  s = slice_to (String.length s - String.length suffix) s +:+ suffix /\
  (String.length suffix <= String.length s)%nat.
Proof.
  unfold endsWith. intros H. apply andb_prop in H as [H1 H2].
  apply Nat.leb_le in H1. apply String.eqb_eq in H2.
  split; [|exact H1].
  rewrite <- H2 at 2. apply slice_split.
Qed.

Lemma taskType_of_suffix (stem ext importPath : string) :
  basename importPath = stem +:+ String dot ext ->
  lastIndexOf dot ext = None -> stem <> "" ->
  taskTypeOf importPath = stem.
Proof.
  intros Hb Hext Hne. unfold taskTypeOf, getFileParts. rewrite Hb.
  assert (Hd : lastIndexOf dot (String dot ext) = Some O)
    by (simpl; rewrite Hext; reflexivity).
  rewrite lastIndexOf_append, Hd, Nat.add_0_r.
  destruct (String.length stem) eqn:L; [destruct stem; [congruence|discriminate]|].
  cbn [nameWithoutExtension]. rewrite <- L. apply slice_to_append.
Qed.

(** X18. A directory entry that passes the filter of [initialize] is a
    non-empty stem followed by [.ts] or [.js], and the type its executor is
    registered under is that stem: only the last suffix is dropped. *)
Theorem executor_file_type (file importPath : string) :
  isExecutorFile file = true ->
  basename importPath = file ->
  exists stem,
    stem <> "" /\ (file = stem +:+ ".ts" \/ file = stem +:+ ".js") /\
    taskTypeOf importPath = stem.
Proof.
  unfold isExecutorFile. intros H Hb.
  apply andb_prop in H as [H _]. apply andb_prop in H as [H Hdot].
  apply andb_prop in H as [H _]. apply negb_true_iff in Hdot.
  assert (Hstem : forall stem ext, file = stem +:+ String dot ext -> stem <> "").
  { intros stem ext -> ->. rewrite append_nil in Hdot.
    unfold startsWith in Hdot. simpl in Hdot. destruct ext; discriminate Hdot. }
  apply orb_prop in H as [H|H]; apply endsWith_split in H as [H _];
    set (stem := slice_to _ file) in H; exists stem.
  - split; [exact (Hstem stem "ts" H)|]. split; [left; exact H|].
    apply (taskType_of_suffix stem "ts"); [rewrite Hb; exact H | reflexivity |].
    exact (Hstem stem "ts" H).
  - split; [exact (Hstem stem "js" H)|]. split; [right; exact H|].
    apply (taskType_of_suffix stem "js"); [rewrite Hb; exact H | reflexivity |].
    exact (Hstem stem "js" H).
Qed.

Lemma executor_file_type_witness :
  exists stem,
    stem <> "" /\
    ("send.mail.ts" = stem +:+ ".ts" \/ "send.mail.ts" = stem +:+ ".js") /\
    taskTypeOf "/app/tasks/send.mail.ts" = stem.
Proof.
  apply (executor_file_type "send.mail.ts" "/app/tasks/send.mail.ts");
    reflexivity.
Defined.

Lemma sanitizeFrom_spec (envAt : nat -> Env) (taskType : string)
      (schema : list TaskValidationRule) :
  forall i,
    let (clean, invalid) := sanitizeFrom envAt taskType i schema in
    (length clean + length invalid = length schema)%nat /\
    (forall v, In v clean -> isCallable v = true /\ In v schema) /\
    (forall e, In e invalid ->
       (i <= ie_index e)%nat /\
       nth_error schema (ie_index e - i) = Some (ie_value e) /\
       rejection (envAt (ie_index e)) taskType (ie_value e) = Some (ie_reason e)) /\
    (forall k v, nth_error schema k = Some v -> isCallable v = false ->
       In (mkInvalid (i + k) v "validator is not a function") invalid).
Proof.
  induction schema as [|v rest IH]; intros i; simpl.
  - split; [reflexivity|]. split; [intros v []|]. split; [intros e []|].
    intros [|k] v H; discriminate H.
  - specialize (IH (S i)).
    destruct (sanitizeFrom envAt taskType (S i) rest) as [clean invalid].
    destruct IH as (Hlen & Hclean & Hinv & Hnf).
    destruct (rejection (envAt i) taskType v) as [why|] eqn:R.
    + split; [simpl; lia|].
      split; [intros v' Hv'; destruct (Hclean v' Hv'); auto|].
      split.
      * intros e [<-|He]; simpl.
        -- rewrite Nat.sub_diag. auto.
        -- destruct (Hinv e He) as (Hi & Hn & Hr). split; [lia|].
           replace (ie_index e - i)%nat with (S (ie_index e - S i)) by lia.
           auto.
      * intros [|k] v' Hk Hc; simpl in Hk.
        -- injection Hk as <-. left. rewrite Nat.add_0_r.
           destruct v; [|discriminate Hc]. simpl in R. injection R as <-.
           reflexivity.
        -- right. replace (i + S k)%nat with (S i + k)%nat by lia. auto.
    + split; [simpl; lia|].
      split.
      * intros v' [<-|Hv'].
        -- split; [|auto]. destruct v; [discriminate R | reflexivity].
        -- destruct (Hclean v' Hv'); auto.
      * split.
        -- intros e He. destruct (Hinv e He) as (Hi & Hn & Hr). split; [lia|].
           replace (ie_index e - i)%nat with (S (ie_index e - S i)) by lia.
           auto.
        -- intros [|k] v' Hk Hc; simpl in Hk.
           ++ injection Hk as <-. destruct v; [discriminate R | discriminate Hc].
           ++ replace (i + S k)%nat with (S i + k)%nat by lia. auto.
Qed.

(** X19. The sanitisation of a validation schema splits it in two: every
    entry is either kept or recorded as invalid, what is kept is callable,
    what is recorded carries its position in the schema and the reason it
    was dropped for, and no entry that is not a function is kept. *)
Theorem sanitize_partitions (envAt : nat -> Env) (taskType : string)
        (schema : list TaskValidationRule) :
  let clean := fst (sanitize envAt taskType schema) in
  let invalid := snd (sanitize envAt taskType schema) in
  (length clean + length invalid = length schema)%nat /\
  (forall v, In v clean -> isCallable v = true /\ In v schema) /\
  (forall e, In e invalid ->
     nth_error schema (ie_index e) = Some (ie_value e) /\
     rejection (envAt (ie_index e)) taskType (ie_value e) = Some (ie_reason e)) /\
  (forall k v, nth_error schema k = Some v -> isCallable v = false ->
     In (mkInvalid k v "validator is not a function") invalid).
Proof.
  simpl. unfold sanitize.
  pose proof (sanitizeFrom_spec envAt taskType schema O) as H.
  destruct (sanitizeFrom envAt taskType O schema) as [clean invalid].
  destruct H as (H1 & H2 & H3 & H4). simpl.
  split; [exact H1|]. split; [exact H2|]. split.
  - intros e He. destruct (H3 e He) as (_ & Hn & Hr).
    rewrite Nat.sub_0_r in Hn. auto.
  - exact H4.
Qed.

Lemma sanitize_partitions_witness :
  In (mkInvalid 0 (NotAFunction (VNum 3)) "validator is not a function")
     (snd (sanitize (fun _ => taskEnv) "mail"
             [NotAFunction (VNum 3);
              Validator "(t) => true" (fun _ => VBool true)])).
Proof.
  destruct (sanitize_partitions (fun _ => taskEnv) "mail"
              [NotAFunction (VNum 3);
               Validator "(t) => true" (fun _ => VBool true)])
    as (_ & _ & _ & H).
  exact (H O (NotAFunction (VNum 3)) eq_refl eq_refl).
Defined.

End RegistryMore.

(* ===================================================================== *)
(** ** Utilities of the database layer *)
(* ===================================================================== *)

Section UtilMore.
Import JS Util Adapter Scenarios Notions MoreScenarios.

(** X20. [hasProperty] only compares the value when the expected value is
    truthy: with an expected value of [0], [false], the empty string, [null]
    or [undefined] it answers as if no value had been asked for, so any
    value of the property is accepted. With a truthy expected value the
    property must be strictly equal to it. *)
Theorem hasProperty_expected_value (object : Value) (property : string)
        (ty : option TypeString) (ev : Value) :
  (truthy ev = false ->
     hasProperty object property
       (Some {| expect_type := ty; expect_value := Some ev |})
     = hasProperty object property
         (Some {| expect_type := ty; expect_value := None |})) /\
  (truthy ev = true ->
     hasProperty object property
       (Some {| expect_type := ty; expect_value := Some ev |}) = true ->
     exists props value,
       object = VObj props /\ get_prop property props = Some value /\
       strict_eq value ev = true).
Proof.
  unfold hasProperty. split; intros Hev.
  - destruct object; try reflexivity.
    destruct (get_prop property props); [|reflexivity].
    rewrite Hev. reflexivity.
  - destruct object; try discriminate.
    destruct (get_prop property props) as [value|] eqn:G; [|discriminate].
    rewrite Hev. intros H. exists props, value.
    split; [reflexivity|]. split; [exact G|].
    destruct ty as [ty|]; [destruct (negb _); [discriminate|]|]; exact H.
Qed.

Lemma hasProperty_expected_value_witness :
  hasProperty (VObj [("count", VNum 7)]) "count"
    (Some {| expect_type := Some TNumber; expect_value := Some (VNum 0) |})
  = hasProperty (VObj [("count", VNum 7)]) "count"
      (Some {| expect_type := Some TNumber; expect_value := None |}).
Proof.
  exact (proj1 (hasProperty_expected_value (VObj [("count", VNum 7)]) "count"
                  (Some TNumber) (VNum 0)) eq_refl).
Defined.



(** A row that shows up at the third of five queries is returned after
    three queries; with two queries allowed, the answer is [null]. *)
Example waitForDbRecord_late_row :
  waitForDbRecord (counting lateRow) whereUid 5 (2%nat, 0)
  = (Return row, (O, 3)) /\
  waitForDbRecord (counting lateRow) whereUid 2 (2%nat, 0)
  = (Return VNull, (O, 2)).
Proof. split; reflexivity. Qed.

End UtilMore.

(* ===================================================================== *)
(** ** The worker script *)
(* ===================================================================== *)

Section WorkerMore.
Import JS QueueTask TaskExecutor WorkerScript Scenarios Notions MoreScenarios.

Lemma sendTaskInfo_outbox task error result s :
  sendTaskInfo task error result s
  = (Return tt,
     {| taskLoad := taskLoad s;
        outbox := outbox s ++
          [mkTaskInfo task
             (match error with Some e => message e | None => "null" end)
             result] |}).
Proof. reflexivity. Qed.

Lemma taskBody_outbox cfg data s :
  exists msgs,
    outbox (snd (taskBody cfg data s)) = outbox s ++ msgs /\
    match fst (taskBody cfg data s) with
    | Return _ => length msgs = 1%nat \/ FailureThenPlain msgs
    | Throw _ => msgs = []
    end.
Proof.
  unfold taskBody.
  destruct (taskExecutors cfg !! _) as [executor|].
  2:{ rewrite sendTaskInfo_outbox. simpl. eexists. split; [reflexivity|]. auto. }
  destruct (execute _ _ _) as [[outcome task1]|] eqn:E.
  2:{ destruct (execute_total
                  (exec executor (fromPlainObject (WorkerScript.taskEnv cfg) data))
                  (retrySchema executor)
                  (fromPlainObject (WorkerScript.taskEnv cfg) data)) as [r Hr].
      rewrite Hr in E. discriminate E. }
  assert (Hfail : forall error result,
    exists msgs,
      outbox (snd ((let* _ := lift (onFailure executor
                       (set_error (Some error) (set_status failed task1))
                       result error) in
                    sendTaskInfo (Some (set_error (Some error)
                                          (set_status failed task1)))
                                 (Some error) result ;;
                    sendTaskInfo (Some (set_error (Some error)
                                          (set_status failed task1)))
                                 None result)%js s))
      = outbox s ++ msgs /\
      match fst ((let* _ := lift (onFailure executor
                       (set_error (Some error) (set_status failed task1))
                       result error) in
                    sendTaskInfo (Some (set_error (Some error)
                                          (set_status failed task1)))
                                 (Some error) result ;;
                    sendTaskInfo (Some (set_error (Some error)
                                          (set_status failed task1)))
                                 None result)%js s) with
      | Return _ => length msgs = 1%nat \/ FailureThenPlain msgs
      | Throw _ => msgs = []
      end).
  { intros error result. unfold bind, lift.
    destruct (onFailure executor _ result error) as [[]|e].
    - rewrite !sendTaskInfo_outbox. simpl. rewrite <- app_assoc. simpl.
      eexists. split; [reflexivity|]. right.
      eexists _, error, result. split; [reflexivity|]. split; reflexivity.
    - simpl. exists []. rewrite app_nil_r. auto. }
  destruct outcome as [result|e].
  - destruct (onComplete executor task1 result) as [[]|e].
    + rewrite sendTaskInfo_outbox. simpl. eexists. split; [reflexivity|]. auto.
    + apply Hfail.
  - apply Hfail.
Qed.

(** X22. The worker reports on every task it is handed: one message, or,
    when the execution or [onComplete] threw and [onFailure] returned, two
    messages about the same failed task, of which the second carries the
    error ["null"]. A task refused at full load is reported by a single
    message that names no task. *)
Theorem processTask_reports cfg data s :
  exists msgs,
    outbox (snd (processTask cfg data s)) = outbox s ++ msgs /\
    (length msgs = 1%nat \/ FailureThenPlain msgs) /\
    (atFullLoad cfg s = true ->
     msgs = [mkTaskInfo None (m cfg "Currently under full load") initialResult]).
Proof.
  unfold processTask, guarded, try_finally, try_catch.
  destruct (atFullLoad cfg s) eqn:Hfull.
  - rewrite (withWorkerCapacity_refuses cfg _ s Hfull).
    rewrite sendTaskInfo_outbox. simpl.
    eexists. split; [reflexivity|]. split; [left; reflexivity | reflexivity].
  - rewrite (withWorkerCapacity_runs cfg _ s Hfull). cbv zeta.
    set (s1 := {| taskLoad := taskLoad s + 1; outbox := outbox s |}).
    destruct (taskBody_outbox cfg data s1) as (msgs & Hout & Hres).
    destruct (fst (taskBody cfg data s1)) as [[]|e].
    + simpl. exists msgs. split; [exact Hout|]. split; [exact Hres | discriminate].
    + subst msgs. rewrite sendTaskInfo_outbox. simpl. rewrite Hout.
      simpl. rewrite app_nil_r.
      eexists. split; [reflexivity|]. split; [left; reflexivity | discriminate].
Qed.

Lemma processTask_reports_witness :
  exists msgs,
    outbox (snd (processTask workerConfig noopOptions
                   {| taskLoad := 3; outbox := [] |})) = [] ++ msgs /\
    (length msgs = 1%nat \/ FailureThenPlain msgs) /\
    msgs = [mkTaskInfo None (m workerConfig "Currently under full load")
                       initialResult].
Proof.
  destruct (processTask_reports workerConfig noopOptions
              {| taskLoad := 3; outbox := [] |}) as (msgs & H1 & H2 & H3).
  exists msgs. split; [exact H1|]. split; [exact H2 | exact (H3 eq_refl)].
Defined.

(** A task whose executor throws is reported twice, the second time without
    its error. *)
Example crash_is_reported_twice :
  map ti_error (outbox (snd (processTask crashingConfig noopOptions idle)))
  = ["disk full"; "null"].
Proof. reflexivity. Qed.

(** X23. Of the tasks of one [taskBatch] message, the gate lets in as many
    as the distance between [taskLoad] and [MAX_TASK_LOAD] allows, the
    first ones of the array, and refuses the rest; when [MAX_TASK_LOAD] is
    not a number it refuses none. *)
Theorem gate_lets_in cfg taskData s :
  gatePassed (fst (startAll cfg taskData s))
  = match MAX_TASK_LOAD cfg with
    | Some max => Z.min (Z.of_nat (length taskData)) (Z.max 0 (max - taskLoad s))
    | None => Z.of_nat (length taskData)
    end.
Proof.
  revert s. induction taskData as [|data rest IH]; intros s.
  - unfold gatePassed. simpl. destruct (MAX_TASK_LOAD cfg); lia.
  - cbn [startAll]. unfold startTask, enterCapacity, bind, get, atFullLoad.
    destruct (MAX_TASK_LOAD cfg) as [max|] eqn:Hmax.
    + destruct (Z.geb_spec (taskLoad s) max).
      * unfold throw. specialize (IH s).
        destruct (startAll cfg rest s) as [sts s2]. cbn [fst] in *.
        unfold gatePassed in *. cbn [List.filter snd]. rewrite IH.
        rewrite !Nat2Z.inj_succ || simpl length. lia.
      * unfold incrementLoad, modify.
        specialize (IH {| taskLoad := taskLoad s + 1; outbox := outbox s |}).
        destruct (startAll cfg rest _) as [sts s2]. cbn [fst] in *.
        unfold gatePassed in *. cbn [List.filter snd length].
        cbn [taskLoad] in IH. rewrite Nat2Z.inj_succ, IH. simpl length. lia.
    + unfold incrementLoad, modify.
      specialize (IH {| taskLoad := taskLoad s + 1; outbox := outbox s |}).
      destruct (startAll cfg rest _) as [sts s2]. cbn [fst] in *.
      unfold gatePassed in *. cbn [List.filter snd length].
      rewrite Nat2Z.inj_succ, IH. simpl length. lia.
Qed.

End WorkerMore.

(* ===================================================================== *)
(** ** File names with and without extension *)
(* ===================================================================== *)

Section ExtensionsMore.
Import JS Files Extensions.

Lemma In_existsb (x : string) (l : list string) :
  existsb (String.eqb x) l = true <-> In x l.
Proof.
  rewrite existsb_exists. split.
  - intros (y & Hy & E). apply String.eqb_eq in E. subst. exact Hy.
  - intros H. exists x. split; [exact H | apply String.eqb_refl].
Qed.

Lemma unique_fold_spec (l : list string) :
  forall seen,
    List.NoDup seen ->
    List.NoDup (fold_left visit l seen) /\
    (forall x, In x (fold_left visit l seen) <-> In x seen \/ In x l) /\
    exists more, fold_left visit l seen = seen ++ more.
Proof.
  induction l as [|a l IH]; intros seen Hnd; simpl.
  - split; [exact Hnd|]. split; [tauto|]. exists []. rewrite app_nil_r. reflexivity.
  - unfold visit at 2 4 6. destruct (existsb (String.eqb a) seen) eqn:E.
    + destruct (IH seen Hnd) as (H1 & H2 & H3).
      split; [exact H1|]. split; [|exact H3].
      intros x. rewrite H2. apply In_existsb in E.
      split; [tauto|]. intros [H|[<-|H]]; auto.
    + assert (Hnd' : List.NoDup (seen ++ [a])).
      { apply List.NoDup_app; [exact Hnd | constructor; [intros [] | constructor]|].
        intros x Hx [<-|[]]. apply In_existsb in Hx. congruence. }
      destruct (IH (seen ++ [a]) Hnd') as (H1 & H2 & more & H3).
      split; [exact H1|]. split.
      * intros x. rewrite H2, in_app_iff. simpl. tauto.
      * exists (a :: more). rewrite H3, <- app_assoc. reflexivity.
Qed.

Lemma unique_fold_seen (l seen : list string) :
  (forall x, In x l -> In x seen) -> fold_left visit l seen = seen.
Proof.
  induction l as [|a l IH]; intros H; simpl; [reflexivity|].
  unfold visit at 2.
  replace (existsb (String.eqb a) seen) with true
    by (symmetry; apply In_existsb, H; simpl; auto).
  apply IH. intros x Hx. apply H. simpl. auto.
Qed.

Lemma unique_twice (l : list string) : unique (l ++ l) = unique l.
Proof.
  unfold unique. rewrite fold_left_app.
  apply unique_fold_seen. intros x Hx.
  apply (proj1 (proj2 (unique_fold_spec l [] (List.NoDup_nil _)))). auto.
Qed.

Lemma fold_without (filenames extensions result : list string) :
  fold_left (addExtension filenames (Some Without)) extensions result = result.
Proof.
  revert result. induction extensions as [|e rest IH]; intros result; simpl;
    [reflexivity | apply IH].
Qed.

Lemma fold_plain_keeps (filenames extensions result : list string) (x : string) :
  In x result ->
  In x (fold_left (addExtension filenames None) extensions result).
Proof.
  revert result. induction extensions as [|e rest IH]; intros result H; simpl;
    [exact H|].
  apply IH. unfold addExtension. apply in_or_app. auto.
Qed.

Lemma withExtension_keeps (filenames : list string) (ext name : string) :
  In name filenames -> In name (withExtension filenames ext).
Proof.
  intros H. unfold withExtension. apply in_flat_map. exists name.
  split; [exact H|].
  destruct (String.eqb _ ext); simpl; auto.
Qed.

(** X27. What the third argument of [changeFileExtensions] does: with
    ["without"] the result is empty whatever the names and extensions are;
    with ["with"] only the last extension counts, and the result is the
    list built for it, originals included, without repetitions; with no
    third argument every given name is in the result, as soon as there is
    an extension. The result never holds a name twice. *)
Theorem changeFileExtensions_only (filenames extensions : list string)
        (lastExtension : string) (only : option Only) :
  changeFileExtensions filenames extensions (Some Without) = [] /\
  changeFileExtensions filenames (extensions ++ [lastExtension]) (Some With)
  = unique (withExtension filenames (stripLeadingDot lastExtension)) /\
  (forall name, In name filenames ->
     In name (changeFileExtensions filenames (extensions ++ [lastExtension]) None)) /\
  List.NoDup (changeFileExtensions filenames extensions only).
Proof.
  unfold changeFileExtensions. split; [rewrite fold_without; reflexivity|].
  split.
  { rewrite fold_left_app. cbn [fold_left]. unfold addExtension at 1.
    apply unique_twice. }
  split.
  { intros name Hin. unfold unique.
    apply (proj1 (proj2 (unique_fold_spec _ [] (List.NoDup_nil _)))). right.
    rewrite fold_left_app. cbn [fold_left]. unfold addExtension at 1.
    apply in_or_app. right. apply withExtension_keeps, Hin. }
  unfold unique.
  apply (proj1 (unique_fold_spec _ [] (List.NoDup_nil _))).
Qed.

(** The names of [a.ts] and [b] for the extensions [js] and [.ts]. *)
Example changeFileExtensions_examples :
  changeFileExtensions ["a.ts"; "b"] ["js"; ".ts"] None
  = ["a.ts"; "a.ts.js"; "b"; "b.js"; "a"; "b.ts"] /\
  changeFileExtensions ["a.ts"; "b"] ["js"; ".ts"] (Some With)
  = ["a"; "a.ts"; "b"; "b.ts"] /\
  changeFileExtensions ["a.ts"; "b"] ["js"; ".ts"] (Some Without) = [].
Proof. repeat split; reflexivity. Qed.

End ExtensionsMore.
